(** * 321 LX scale data logger: acquisition, parsing, ledger and checkpoint

    A shallow embedding of the acquisition core of
    [321lx_data_logger_ver2.py] (class [BalanceLogger]) and the properties
    of it that the specification states.

    Conventions of the embedding.
    - A Python [str] is a [string]; a character is its code point, below
      256.  The only character the program can meet above that range is
      U+FFFD, which [decode('ascii', errors='replace')] produces; it is
      represented by [replacement_char], which like U+FFFD is neither a
      digit, nor white space, nor a letter with a lower-case form.
    - A Python [int] is a [Z]; a Python [float] is a binary64 value, a
      [spec_float] at precision 53 and maximal exponent 1024.
    - A method of [BalanceLogger] is a function on the record [app] of the
      attributes it reads and writes; what it asks of the operator or reads
      from a widget is an argument. *)

From Stdlib Require Import ZArith NArith List Bool Lia String Ascii.
From Stdlib Require Import Numbers.DecimalString.
From Stdlib Require Numbers.DecimalPos Numbers.DecimalZ.
From Stdlib Require Import Floats.SpecFloat.
Import ListNotations.

Open Scope string_scope.
Open Scope Z_scope.

(** ** Python text primitives *)

Definition code (c : ascii) : Z := Z.of_N (N_of_ascii c).

Definition chr (n : Z) : ascii := ascii_of_N (Z.to_N n).

(** The stand-in for U+FFFD. *)
Definition replacement_char : ascii := chr 253.

(** [\d] on the characters of the model: the ASCII digits (no code point of
    Latin-1 above them is a decimal digit). *)
Definition is_digit (c : ascii) : bool :=
  (48 <=? code c) && (code c <=? 57).

(** [str.isspace] on one character. *)
Definition is_space (c : ascii) : bool :=
  let n := code c in
  ((9 <=? n) && (n <=? 13)) || ((28 <=? n) && (n <=? 32))
  || (n =? 133) || (n =? 160).

Fixpoint lstrip (s : string) : string :=
  match s with
  | EmptyString => EmptyString
  | String c s' => if is_space c then lstrip s' else s
  end.

Fixpoint rstrip (s : string) : string :=
  match s with
  | EmptyString => EmptyString
  | String c s' =>
      match rstrip s' with
      | EmptyString => if is_space c then EmptyString else String c EmptyString
      | r => String c r
      end
  end.

(** [str.strip()] *)
Definition strip (s : string) : string := rstrip (lstrip s).

Definition lower_char (c : ascii) : ascii :=
  let n := code c in
  if ((65 <=? n) && (n <=? 90))
     || ((192 <=? n) && (n <=? 222) && negb (n =? 215))
  then chr (n + 32) else c.

(** [str.lower()] *)
Fixpoint lower (s : string) : string :=
  match s with
  | EmptyString => EmptyString
  | String c s' => String (lower_char c) (lower s')
  end.

(** [needle in hay] *)
Fixpoint str_in (needle hay : string) : bool :=
  prefix needle hay
  || match hay with
     | EmptyString => false
     | String _ hay' => str_in needle hay'
     end.

Fixpoint str_filter (keep : ascii -> bool) (s : string) : string :=
  match s with
  | EmptyString => EmptyString
  | String c s' =>
      if keep c then String c (str_filter keep s') else str_filter keep s'
  end.

Fixpoint str_forall (p : ascii -> bool) (s : string) : bool :=
  match s with
  | EmptyString => true
  | String c s' => p c && str_forall p s'
  end.

Fixpoint repeat_char (c : ascii) (n : nat) : string :=
  match n with
  | O => EmptyString
  | S n' => String c (repeat_char c n')
  end.

(** [str(n)] for an [int]. *)
Definition str_of_int (n : Z) : string :=
  NilZero.string_of_int (Z.to_int n).

(** Left padding with zeros to a width, as [%03d] and [%03X] do. *)
Definition zero_pad (width : nat) (s : string) : string :=
  repeat_char "0"%char (width - String.length s) ++ s.

Definition hex_digit (d : Z) : ascii :=
  if d <? 10 then chr (48 + d) else chr (55 + d).

Fixpoint hex_upper_fuel (fuel : nat) (n : Z) (acc : string) : string :=
  match fuel with
  | O => acc
  | S fuel' =>
      let acc' := String (hex_digit (n mod 16)) acc in
      if n / 16 =? 0 then acc' else hex_upper_fuel fuel' (n / 16) acc'
  end.

(** [%X] of a non-negative integer. *)
Definition hex_upper (n : Z) : string :=
  hex_upper_fuel (S (Z.to_nat (Z.log2 n))) n EmptyString.

(** ** Python floats

    A [float] is a binary64 value.  The three conversions between floats and
    text that the program uses are given here on the exact value
    [m * 2 ^ e] of a finite float, with integer arithmetic only. *)

Definition float64 := spec_float.

Definition prec : Z := 53.
Definition emax : Z := 1024.

(** The binary64 value nearest to [n / d], ties to even; the quotient and the
    position of the remainder are those of the library's division. *)
Definition float_of_ratio (neg : bool) (n d : positive) : float64 :=
  SFdiv prec emax (S754_finite neg n 0) (S754_finite false d 0).

Definition float_eqb (x y : float64) : bool :=
  match x, y with
  | S754_zero a, S754_zero b => Bool.eqb a b
  | S754_infinity a, S754_infinity b => Bool.eqb a b
  | S754_finite a m e, S754_finite b m' e' =>
      Bool.eqb a b && Pos.eqb m m' && Z.eqb e e'
  | _, _ => false
  end.

Fixpoint take_digits (s : string) : string * string :=
  match s with
  | EmptyString => (EmptyString, EmptyString)
  | String c s' =>
      if is_digit c
      then let '(ds, rest) := take_digits s' in (String c ds, rest)
      else (EmptyString, s)
  end.

Fixpoint digits_value (acc : Z) (s : string) : Z :=
  match s with
  | EmptyString => acc
  | String c s' => digits_value (10 * acc + (code c - 48)) s'
  end.

Definition split_sign (s : string) : bool * string :=
  match s with
  | String "+" body => (false, body)
  | String "-" body => (true, body)
  | _ => (false, s)
  end.

Definition float_of_unsigned (neg : bool) (body : string) : option float64 :=
  let '(ip, r1) := take_digits body in
  match r1 with
  | String "." r2 =>
      let '(fp, r3) := take_digits r2 in
      match ip, fp, r3 with
      | String _ _, String _ _, EmptyString =>
          Some match digits_value 0 (ip ++ fp) with
               | Zpos n =>
                   float_of_ratio neg n
                     (Z.to_pos (10 ^ Z.of_nat (String.length fp)))
               | _ => S754_zero neg
               end
      | _, _, _ => None
      end
  | _ => None
  end.

(** [float(s)] on the texts the program passes to it: an optional sign,
    digits, a point, digits.  [None] is [ValueError]. *)
Definition float_of_decimal (s : string) : option float64 :=
  let '(neg, body) := split_sign s in float_of_unsigned neg body.

(** Numerator and denominator of [m * 2 ^ e * 10 ^ j]. *)
Definition scaled10 (m : positive) (e j : Z) : Z * Z :=
  (Zpos m * 2 ^ Z.max e 0 * 10 ^ Z.max j 0,
   2 ^ Z.max (- e) 0 * 10 ^ Z.max (- j) 0).

Definition round_half_even (n d : Z) : Z :=
  let q := n / d in
  match 2 * (n mod d) ?= d with
  | Lt => q
  | Gt => q + 1
  | Eq => if Z.even q then q else q + 1
  end.

Definition sign_text (neg : bool) : string := if neg then "-" else "".

(** [f"{x:.3f}"]: the exact value rounded to three decimals, ties to even. *)
Definition format_3f (x : float64) : string :=
  match x with
  | S754_nan => "nan"
  | S754_infinity s => sign_text s ++ "inf"
  | S754_zero s => sign_text s ++ "0.000"
  | S754_finite s m e =>
      let '(n, d) := scaled10 m e 3 in
      let r := round_half_even n d in
      sign_text s ++ str_of_int (r / 1000) ++ "."
        ++ zero_pad 3 (str_of_int (r mod 1000))
  end.

(** [m * 2 ^ e < 10 ^ k] *)
Definition below_pow10 (m : positive) (e k : Z) : bool :=
  let '(n, d) := scaled10 m e (- k) in n <? d.

Fixpoint decpt_from (fuel : nat) (m : positive) (e k : Z) : Z :=
  match fuel with
  | O => k
  | S fuel' => if below_pow10 m e k then k else decpt_from fuel' m e (k + 1)
  end.

(** The [k] with [10 ^ (k - 1) <= m * 2 ^ e < 10 ^ k]; the search starts at
    an under-estimate of it at most two below. *)
Definition decimal_point (m : positive) (e : Z) : Z :=
  decpt_from 4 m e ((Zpos (digits2_pos m) + e - 1) * 30103 / 100000).

(** Does the decimal [D * 10 ^ j] read back as [x]? *)
Definition reads_back (x : float64) (D j : Z) : bool :=
  match D * 10 ^ Z.max j 0 with
  | Zpos n => float_eqb (float_of_ratio false n (Z.to_pos (10 ^ Z.max (- j) 0))) x
  | _ => false
  end.

(** The shortest decimal [D * 10 ^ j] that reads back as [m * 2 ^ e], the
    nearest one when two of that length do: with [nd] digits the only
    candidates are the two neighbours of the value. *)
Fixpoint shortest_from (fuel : nat) (m : positive) (e k nd : Z) : Z * Z :=
  let j := k - nd in
  let '(n, d) := scaled10 m e (- j) in
  let lo := n / d in
  let r := n mod d in
  match fuel with
  | O => (lo, j)
  | S fuel' =>
      let x := S754_finite false m e in
      let ok_lo := reads_back x lo j in
      let ok_hi := negb (r =? 0) && reads_back x (lo + 1) j in
      if ok_lo && ok_hi then
        (match 2 * r ?= d with
         | Lt => lo
         | Gt => lo + 1
         | Eq => if Z.even lo then lo else lo + 1
         end, j)
      else if ok_lo then (lo, j)
      else if ok_hi then (lo + 1, j)
      else shortest_from fuel' m e k (nd + 1)
  end.

Fixpoint drop_trailing_zeros (s : string) : string :=
  match s with
  | EmptyString => EmptyString
  | String c s' =>
      match drop_trailing_zeros s' with
      | EmptyString =>
          if Ascii.eqb c "0" then EmptyString else String c EmptyString
      | r => String c r
      end
  end.

(** [repr(x)], which is also [str(x)]: the shortest digits that read back,
    in exponent form when the decimal point falls outside of them by more
    than Python allows. *)
Definition float_repr (x : float64) : string :=
  match x with
  | S754_nan => "nan"
  | S754_infinity s => sign_text s ++ "inf"
  | S754_zero s => sign_text s ++ "0.0"
  | S754_finite s m e =>
      let '(D, j) := shortest_from 17 m e (decimal_point m e) 1 in
      let all := str_of_int D in
      let decpt := Z.of_nat (String.length all) + j in
      let ds := drop_trailing_zeros all in
      let n := Z.of_nat (String.length ds) in
      sign_text s ++
      if (decpt <=? -4) || (16 <? decpt) then
        match ds with
        | EmptyString => EmptyString
        | String d1 EmptyString => String d1 EmptyString
        | String d1 rest => String d1 ("." ++ rest)
        end
        ++ "e" ++ (if decpt - 1 <? 0 then "-" else "+")
        ++ zero_pad 2 (str_of_int (Z.abs (decpt - 1)))
      else if decpt <=? 0 then
        "0." ++ repeat_char "0"%char (Z.to_nat (- decpt)) ++ ds
      else if n <=? decpt then
        ds ++ repeat_char "0"%char (Z.to_nat (decpt - n)) ++ ".0"
      else
        substring 0 (Z.to_nat decpt) ds ++ "."
          ++ substring (Z.to_nat decpt) (Z.to_nat (n - decpt)) ds
  end.

(** ** Application state *)

(** One entry of [self.data]: the dict that [process_data] appends, a field
    per key. *)
Record row := {
  row_sample_name : string;
  row_weight : float64;
  row_unit : string;
  row_device : string;
  row_comments : string;
  row_iid : string
}.

Definition set_sample_name (v : string) (r : row) : row :=
  {| row_sample_name := v; row_weight := row_weight r; row_unit := row_unit r;
     row_device := row_device r; row_comments := row_comments r;
     row_iid := row_iid r |}.

Definition set_comments (v : string) (r : row) : row :=
  {| row_sample_name := row_sample_name r; row_weight := row_weight r;
     row_unit := row_unit r; row_device := row_device r; row_comments := v;
     row_iid := row_iid r |}.

(** The [ttk.Treeview]: the items in display order, each with its item id
    and the texts of its five columns, and the counter from which Tk names
    new items ([I001], [I002], ...; it is never reset). *)
Record treeview := {
  tree_serial : Z;
  tree_items : list (string * list string)
}.

(** [self.tree.insert("", "end", values=values)] *)
Definition tree_insert (values : list string) (t : treeview)
  : string * treeview :=
  let n := tree_serial t + 1 in
  let item := "I" ++ zero_pad 3 (hex_upper n) in
  (item, {| tree_serial := n; tree_items := tree_items t ++ [(item, values)] |}).

(** [for i in self.tree.get_children(): self.tree.delete(i)] *)
Definition tree_delete_all (t : treeview) : treeview :=
  {| tree_serial := tree_serial t; tree_items := [] |}.

Definition tree_exists (item : string) (t : treeview) : bool :=
  existsb (fun it => fst it =? item)%string (tree_items t).

Fixpoint replace_nth {A} (n : nat) (v : A) (l : list A) : list A :=
  match l, n with
  | [], _ => []
  | _ :: l', O => v :: l'
  | x :: l', S n' => x :: replace_nth n' v l'
  end.

(** [self.tree.set(item, column=columns[col_idx], value=value)]; [None] is
    the [TclError] Tk raises for an item that is not in the tree. *)
Definition tree_set (item : string) (col_idx : Z) (value : string)
    (t : treeview) : option treeview :=
  if tree_exists item t then
    Some {| tree_serial := tree_serial t;
            tree_items :=
              map (fun it =>
                     if (fst it =? item)%string
                     then (fst it, replace_nth (Z.to_nat col_idx) value (snd it))
                     else it)
                  (tree_items t) |}
  else None.

(** The document [json.dump] writes and [json.load] reads back: an object
    whose keys [temp.get] looks up, each of which may be missing.  The JSON
    text itself is not modelled: a document of strings, integers, floats,
    lists and string-keyed dicts is what its text reads back as. *)
Record checkpoint := {
  cp_data : option (list row);
  cp_sample_counter : option Z;
  cp_device_name : option string
}.

(** The file named [TEMP_FILE]. *)
Inductive checkpoint_file :=
| NoFile
| Unreadable
| Document (temp : checkpoint).

(** The attributes of [BalanceLogger] that acquisition reads and writes. *)
Record app := {
  data : list row;
  sample_counter : Z;
  device_name : string;
  tree : treeview;
  current_weight : string;
  TEMP_FILE : checkpoint_file
}.

(** The state [__init__] builds, before it looks for a checkpoint. *)
Definition init (file : checkpoint_file) : app :=
  {| data := []; sample_counter := 1; device_name := "";
     tree := {| tree_serial := 0; tree_items := [] |};
     current_weight := "0.000 g"; TEMP_FILE := file |}.

(** ** Crash recovery *)

(** [save_temp_data]; the write is taken to succeed (when it does not, the
    program prints a message and goes on). *)
Definition save_temp_data (st : app) : app :=
  {| data := data st; sample_counter := sample_counter st;
     device_name := device_name st; tree := tree st;
     current_weight := current_weight st;
     TEMP_FILE := Document {| cp_data := Some (data st);
                              cp_sample_counter := Some (sample_counter st);
                              cp_device_name := Some (device_name st) |} |}.

Definition clear_temp_data (st : app) : app :=
  {| data := data st; sample_counter := sample_counter st;
     device_name := device_name st; tree := tree st;
     current_weight := current_weight st; TEMP_FILE := NoFile |}.

(** The five column texts [refresh_table] shows for a row. *)
Definition row_values (r : row) : list string :=
  [row_sample_name r; format_3f (row_weight r); row_unit r; row_device r;
   row_comments r].

Definition refresh_table (st : app) : app :=
  {| data := data st; sample_counter := sample_counter st;
     device_name := device_name st;
     tree := fold_left (fun t r => snd (tree_insert (row_values r) t))
               (data st) (tree_delete_all (tree st));
     current_weight :=
       match rev (data st) with
       | [] => "0.000 g"
       | last :: _ => format_3f (row_weight last) ++ " " ++ row_unit last
       end;
     TEMP_FILE := TEMP_FILE st |}.

(** [temp.get(key, default)] *)
Definition get {A} (field : option A) (default : A) : A :=
  match field with
  | Some v => v
  | None => default
  end.

(** [load_temp_data]; [restore] is the operator's answer to "Restore
    previous unsaved session?", asked only when the file was read. *)
Definition load_temp_data (restore : bool) (st : app) : app :=
  match TEMP_FILE st with
  | NoFile => st
  | Unreadable => st
  | Document temp =>
      if restore then
        refresh_table
          {| data := get (cp_data temp) [];
             sample_counter := get (cp_sample_counter temp) 1;
             device_name := get (cp_device_name temp) "";
             tree := tree st; current_weight := current_weight st;
             TEMP_FILE := TEMP_FILE st |}
      else clear_temp_data st
  end.

(** [reset_data]; [confirmed] is the operator's answer. *)
Definition reset_data (confirmed : bool) (st : app) : app :=
  if confirmed then
    {| data := []; sample_counter := 1; device_name := "";
       tree := tree_delete_all (tree st); current_weight := "0.000 g";
       TEMP_FILE := NoFile |}
  else st.

(** ** Reading extraction and append: [process_data] *)

(** The class [\d\+-\.gk] that [re.sub] keeps: a digit, a character of the
    range from [+] to [.], [g] or [k]. *)
Definition in_kept_class (c : ascii) : bool :=
  is_digit c
  || ((code "+" <=? code c) && (code c <=? code "."))
  || Ascii.eqb c "g" || Ascii.eqb c "k".

(** [re.sub(r'[^\d\+-\.gk]', '', data)] *)
Definition clean (data : string) : string := str_filter in_kept_class data.

(** [\d+\.\d+] at the start of [s]: the text it matches.  Each repetition
    is greedy, and giving a digit back never helps, since what follows the
    digits must be a point or the end of the match. *)
Definition match_unsigned (s : string) : option string :=
  let '(ip, r1) := take_digits s in
  match ip, r1 with
  | String _ _, String "." r2 =>
      let '(fp, _) := take_digits r2 in
      match fp with
      | String _ _ => Some (ip ++ "." ++ fp)
      | EmptyString => None
      end
  | _, _ => None
  end.

Definition is_sign (c : ascii) : bool := Ascii.eqb c "+" || Ascii.eqb c "-".

(** [[+-]?\d+\.\d+] at the start of [s]: first with a sign taken, then
    without one. *)
Definition match_weight (s : string) : option string :=
  let signed :=
    match s with
    | String c body =>
        if is_sign c then
          match match_unsigned body with
          | Some t => Some (String c t)
          | None => None
          end
        else None
    | EmptyString => None
    end in
  match signed with
  | Some t => Some t
  | None => match_unsigned s
  end.

(** [re.search(r'([+-]?\d+\.\d+)', s)]: group 1 of the leftmost match. *)
Fixpoint search_weight (s : string) : option string :=
  match match_weight s with
  | Some group => Some group
  | None =>
      match s with
      | EmptyString => None
      | String _ s' => search_weight s'
      end
  end.

(** The unit test of [process_data]. *)
Definition unit_of (clean_data : string) : string :=
  if str_in "g" (lower clean_data) then "g"
  else if str_in "kg" (lower clean_data) then "kg"
  else "?".

(** The first half of [process_data], up to the unit: the reading of a
    line, or [None] where the method returns without one. *)
Definition extract (data : string) : option (float64 * string) :=
  let clean_data := clean data in
  if (clean_data =? "")%string then None
  else
    match search_weight clean_data with
    | None => None
    | Some group =>
        match float_of_decimal group with
        | None => None
        | Some weight => Some (weight, unit_of clean_data)
        end
    end.

(** [a or b] on strings *)
Definition str_or (a b : string) : string :=
  if (a =? "")%string then b else a.

(** The second half of [process_data]: the append.  [combo] is the text of
    [self.presets_combo]. *)
Definition append_reading (combo : string) (weight : float64) (unit : string)
    (st : app) : app :=
  let sample_name := "Sample_" ++ str_of_int (sample_counter st) in
  let device := str_or (str_or combo (device_name st)) "Unknown" in
  let values := [sample_name; format_3f weight; unit; device; ""] in
  let '(item, tree') := tree_insert values (tree st) in
  save_temp_data
    {| data := data st ++ [{| row_sample_name := sample_name;
                              row_weight := weight; row_unit := unit;
                              row_device := device; row_comments := "";
                              row_iid := item |}];
       sample_counter := sample_counter st + 1;
       device_name := device;
       tree := tree';
       current_weight := format_3f weight ++ " " ++ unit;
       TEMP_FILE := TEMP_FILE st |}.

Definition process_data (combo data : string) (st : app) : app :=
  match extract data with
  | None => st
  | Some (weight, unit) => append_reading combo weight unit st
  end.

(** ** Editing a row: [on_treeview_double_click] *)

(** The loop of [save_edit] over [self.data]: the first item whose [iid] is
    [rowid] gets the new value, in [sample_name] for column 0 and in
    [comments] otherwise, and the loop stops there. *)
Fixpoint edit_rows (rowid : string) (col_idx : Z) (new_value : string)
    (rows : list row) : list row :=
  match rows with
  | [] => []
  | item :: rest =>
      if (row_iid item =? rowid)%string then
        (if col_idx =? 0 then set_sample_name new_value item
         else set_comments new_value item) :: rest
      else item :: edit_rows rowid col_idx new_value rest
  end.

(** [save_edit], the commit of an edit; [None] is the [TclError] of
    [self.tree.set], which leaves the method before it touches the data. *)
Definition save_edit (rowid : string) (col_idx : Z) (new_value : string)
    (st : app) : option app :=
  match tree_set rowid col_idx new_value (tree st) with
  | None => None
  | Some tree' =>
      Some (save_temp_data
              {| data := edit_rows rowid col_idx new_value (data st);
                 sample_counter := sample_counter st;
                 device_name := device_name st;
                 tree := tree';
                 current_weight := current_weight st;
                 TEMP_FILE := TEMP_FILE st |})
  end.

(** The handler: [region], [rowid] and [col_idx] are what Tk identifies
    under the pointer, [new_value] what the operator types before the edit
    is committed. *)
Definition on_treeview_double_click (region rowid : string) (col_idx : Z)
    (new_value : string) (st : app) : option app :=
  if negb (region =? "cell")%string then Some st
  else if negb (existsb (Z.eqb col_idx) [0; 4]) then Some st
  else save_edit rowid col_idx new_value st.

(** ** Export: [save_data] *)

(** The records [csv.writer] is given, each the list of the texts of its
    fields: a string as it is, a float as [str] gives it. *)
Definition csv_records := list (list string).

Definition export_row (r : row) : list string :=
  [row_sample_name r; float_repr (row_weight r); row_unit r; row_device r;
   row_comments r].

(** [save_data] appends to the records of the export file; [export_time] is
    the text of the clock. *)
Definition save_data (export_time : string) (st : app) (file : csv_records)
  : csv_records :=
  match data st with
  | [] => file
  | _ =>
      (file ++ [("Exported: " ++ export_time)%string]
         :: ["Sample Name"; "Weight"; "Units"; "Device"; "Comments"]
         :: map export_row (data st))%list
  end.

(** ** Frame reassembly: [read_serial] and [read_tcp] *)

Definition CRLF : string := String (chr 13) (String (chr 10) EmptyString).

Fixpoint skip (n : nat) (s : string) : string :=
  match n, s with
  | O, _ => s
  | S _, EmptyString => EmptyString
  | S n', String _ s' => skip n' s'
  end.

(** [s.split(sep, 1)] where [sep in s]: the text before the first
    occurrence of [sep] and the text after it; [None] where [sep] does not
    occur. *)
Fixpoint split_once (sep s : string) : option (string * string) :=
  if prefix sep s then Some (EmptyString, skip (String.length sep) s)
  else
    match s with
    | EmptyString => None
    | String c s' =>
        match split_once sep s' with
        | Some (line, rest) => Some (String c line, rest)
        | None => None
        end
    end.

(** [raw.decode('ascii', errors='replace')], byte by byte. *)
Definition decode_byte (b : Byte.byte) : ascii :=
  if Z.of_N (Byte.to_N b) <? 128 then ascii_of_byte b else replacement_char.

Fixpoint decode (raw : list Byte.byte) : string :=
  match raw with
  | [] => EmptyString
  | b :: raw' => String (decode_byte b) (decode raw')
  end.

Section Reassembler.

(** What the loops do with a line is a parameter, so that the same loops
    can be run on the application and on a plain record of the lines. *)
Variable St : Type.
Variable on_line : string -> St -> St.

(** [while '\r\n' in buffer: line, buffer = buffer.split('\r\n', 1); ...]
    Every turn shortens the buffer, so its length bounds the turns. *)
Fixpoint drain_fuel (fuel : nat) (buffer : string) (st : St) : string * St :=
  match fuel with
  | O => (buffer, st)
  | S fuel' =>
      match split_once CRLF buffer with
      | None => (buffer, st)
      | Some (line, rest) => drain_fuel fuel' rest (on_line line st)
      end
  end.

Definition drain (buffer : string) (st : St) : string * St :=
  drain_fuel (String.length buffer) buffer st.

(** One turn of a read loop that received [raw]. *)
Definition feed (raw : list Byte.byte) (buffer : string) (st : St)
  : string * St :=
  drain (buffer ++ decode raw) st.

(** [read_tcp] on the successive results of [recv], from a buffer and a
    state; an empty result ends the loop, as does the end of the list
    (the socket was closed or raised).  The buffer is returned with the
    state. *)
Fixpoint read_tcp (recvs : list (list Byte.byte)) (buffer : string)
    (st : St) : string * St :=
  match recvs with
  | [] => (buffer, st)
  | [] :: _ => (buffer, st)
  | raw :: more =>
      let '(buffer', st') := feed raw buffer st in
      read_tcp more buffer' st'
  end.

(** [read_serial] on the successive contents of the port's input queue;
    an empty one ([in_waiting] is 0) is a turn that reads nothing. *)
Fixpoint read_serial (reads : list (list Byte.byte)) (buffer : string)
    (st : St) : string * St :=
  match reads with
  | [] => (buffer, st)
  | [] :: more => read_serial more buffer st
  | raw :: more =>
      let '(buffer', st') := feed raw buffer st in
      read_serial more buffer' st'
  end.

End Reassembler.

Arguments drain_fuel {St} on_line fuel buffer st.
Arguments drain {St} on_line buffer st.
Arguments feed {St} on_line raw buffer st.
Arguments read_tcp {St} on_line recvs buffer st.
Arguments read_serial {St} on_line reads buffer st.

(** What both loops do with a line on the application; [combo] is the text
    of the preset box at that time. *)
Definition handle_line (combo line : string) (st : app) : app :=
  save_temp_data (process_data combo (strip line) st).

(** The record of the lines a loop has yielded, in order. *)
Definition record_line (line : string) (seen : list string) : list string :=
  (seen ++ [line])%list.

(** ** Sessions *)

(** What happens to the ledger in a session: a line arrives, the operator
    commits an edit, or answers the reset question. *)
Inductive event :=
| Line (combo line : string)
| Edit (rowid : string) (col_idx : Z) (new_value : string)
| Reset (confirmed : bool).

Definition step (ev : event) (st : app) : app :=
  match ev with
  | Line combo line => handle_line combo line st
  | Edit rowid col_idx new_value =>
      match save_edit rowid col_idx new_value st with
      | Some st' => st'
      | None => st
      end
  | Reset confirmed => reset_data confirmed st
  end.

Definition run (evs : list event) (st : app) : app :=
  fold_left (fun s ev => step ev s) evs st.

(** The sample numbers given out during a run: the counter at each line
    that carries a reading. *)
Fixpoint assigned_ids (evs : list event) (st : app) : list Z :=
  match evs with
  | [] => []
  | ev :: evs' =>
      match ev with
      | Line _ line =>
          match extract (strip line) with
          | Some _ => [sample_counter st]
          | None => []
          end
      | _ => []
      end ++ assigned_ids evs' (step ev st)
  end%list.

Definition is_confirmed_reset (ev : event) : bool :=
  match ev with
  | Reset true => true
  | _ => false
  end.

(** [c, c + 1, ..., c + n - 1] *)
Fixpoint count_from (c : Z) (n : nat) : list Z :=
  match n with
  | O => []
  | S n' => c :: count_from (c + 1) n'
  end.

(** * Properties *)

(** ** Text *)

Lemma append_empty_r (s : string) : s ++ "" = s.
Proof. induction s as [|c s IH]; simpl; [reflexivity | now rewrite IH]. Qed.

Lemma append_assoc (a b c : string) : (a ++ b) ++ c = a ++ b ++ c.
Proof. induction a as [|x a IH]; simpl; [reflexivity | now rewrite IH]. Qed.

Lemma length_append (a b : string) :
  String.length (a ++ b) = (String.length a + String.length b)%nat.
Proof. induction a as [|x a IH]; simpl; [reflexivity | now rewrite IH]. Qed.

Lemma eqb_empty (s : string) : (s =? "")%string = true <-> s = "".
Proof. apply String.eqb_eq. Qed.

(** The class the sanitizer keeps, character by character: the range from
    [+] to [.] is [+], comma, [-] and [.]. *)
Lemma in_kept_class_chars (c : ascii) :
  in_kept_class c
  = is_digit c || Ascii.eqb c "+" || Ascii.eqb c "," || Ascii.eqb c "-"
    || Ascii.eqb c "." || Ascii.eqb c "g" || Ascii.eqb c "k".
Proof. destruct c as [[] [] [] [] [] [] [] []]; reflexivity. Qed.

Lemma str_forall_filter (p : ascii -> bool) (s : string) :
  str_forall p (str_filter p s) = true.
Proof.
  induction s as [|c s IH]; simpl; [reflexivity|].
  destruct (p c) eqn:Hp; simpl; [rewrite Hp|]; exact IH.
Qed.

(** ** Matching a weight *)

(** The spec's words for the pattern: an optional sign, digits, a point,
    digits. *)
Definition decimal_form (t : string) : Prop :=
  exists sg ip fp,
    (sg = "" \/ sg = "+" \/ sg = "-")
    /\ ip <> "" /\ fp <> ""
    /\ str_forall is_digit ip = true /\ str_forall is_digit fp = true
    /\ t = sg ++ ip ++ "." ++ fp.

(** [s] contains a substring of that form. *)
Definition has_decimal (s : string) : Prop :=
  exists pre t post, decimal_form t /\ s = pre ++ t ++ post.

Lemma take_digits_spec (s ds rest : string) :
  take_digits s = (ds, rest) ->
  s = ds ++ rest /\ str_forall is_digit ds = true.
Proof.
  revert ds rest; induction s as [|c s IH]; simpl; intros ds rest H.
  - inversion H; subst; auto.
  - destruct (is_digit c) eqn:Hc.
    + destruct (take_digits s) as [ds' rest'] eqn:Ht.
      inversion H; subst; clear H.
      destruct (IH _ _ eq_refl) as [-> Hd]; simpl; rewrite Hc; auto.
    + inversion H; subst; auto.
Qed.

Lemma match_unsigned_sound (s t : string) :
  match_unsigned s = Some t ->
  exists ip fp post,
    ip <> "" /\ fp <> ""
    /\ str_forall is_digit ip = true /\ str_forall is_digit fp = true
    /\ t = ip ++ "." ++ fp /\ s = t ++ post.
Proof.
  unfold match_unsigned; intros H.
  destruct (take_digits s) as [ip r1] eqn:Hip.
  destruct (take_digits_spec _ _ _ Hip) as [-> Hdi].
  destruct ip as [|i0 ip]; [discriminate|].
  destruct r1 as [|c1 r2]; [discriminate|].
  destruct (Ascii.eqb_spec c1 ".") as [->|Hn].
  2:{ destruct c1 as [[] [] [] [] [] [] [] []]; try discriminate; congruence. }
  destruct (take_digits r2) as [fp r3] eqn:Hfp.
  destruct (take_digits_spec _ _ _ Hfp) as [-> Hdf].
  destruct fp as [|f0 fp]; [discriminate|].
  inversion H; subst; clear H.
  exists (String i0 ip), (String f0 fp), r3.
  repeat split; auto; try discriminate.
  simpl; rewrite ?append_assoc; simpl; rewrite ?append_assoc; reflexivity.
Qed.

Lemma match_weight_sound (s t : string) :
  match_weight s = Some t -> decimal_form t /\ exists post, s = t ++ post.
Proof.
  unfold match_weight; intros H.
  assert (Hu : forall u, match_unsigned u = Some t ->
                 decimal_form t /\ exists post, u = t ++ post).
  { intros u Hu.
    destruct (match_unsigned_sound _ _ Hu) as (ip & fp & post & ? & ? & ? & ? & ? & ?).
    split; [exists "", ip, fp; auto 10 | exists post; auto]. }
  destruct s as [|c body]; [auto|].
  destruct (is_sign c) eqn:Hc; [|auto].
  destruct (match_unsigned body) as [t'|] eqn:Hb; [|auto].
  inversion H; subst; clear H.
  destruct (match_unsigned_sound _ _ Hb)
    as (ip & fp & post & ? & ? & ? & ? & -> & ->).
  split; [|exists post; reflexivity].
  exists (String c ""), ip, fp; repeat split; auto.
  unfold is_sign in Hc; apply orb_true_iff in Hc.
  destruct Hc as [Hc|Hc]; apply Ascii.eqb_eq in Hc; subst; auto.
Qed.

Lemma search_weight_sound (s t : string) :
  search_weight s = Some t -> has_decimal s.
Proof.
  induction s as [|c s IH]; simpl; intros H.
  - destruct (match_weight "") eqn:Hm; [|discriminate].
    destruct (match_weight_sound _ _ Hm) as [Hd [post Hp]].
    exists "", s, post; auto.
  - destruct (match_weight (String c s)) eqn:Hm.
    + destruct (match_weight_sound _ _ Hm) as [Hd [post Hp]].
      exists "", s0, post; auto.
    + destruct (IH H) as (pre & t' & post & Hd & ->).
      exists (String c pre), t', post; auto.
Qed.

Lemma take_digits_app (ds s : string) :
  str_forall is_digit ds = true ->
  take_digits (ds ++ s) = (ds ++ fst (take_digits s), snd (take_digits s)).
Proof.
  induction ds as [|c ds IH]; simpl; intros H.
  - now destruct (take_digits s).
  - apply andb_true_iff in H as [Hc Hd]. now rewrite Hc, (IH Hd).
Qed.

Lemma take_digits_all (ds : string) :
  str_forall is_digit ds = true -> take_digits ds = (ds, "").
Proof.
  intros H. pose proof (take_digits_app ds "" H) as E.
  simpl in E. now rewrite !append_empty_r in E.
Qed.

Lemma take_digits_before_point (ds s : string) :
  str_forall is_digit ds = true ->
  take_digits (ds ++ "." ++ s) = (ds, String "." s).
Proof.
  intros H. rewrite (take_digits_app _ _ H). simpl. now rewrite append_empty_r.
Qed.

Lemma digit_not_sign (c : ascii) : is_digit c = true -> is_sign c = false.
Proof. destruct c as [[] [] [] [] [] [] [] []]; simpl; auto. Qed.

Lemma match_unsigned_complete (ip fp post : string) :
  ip <> "" -> fp <> "" ->
  str_forall is_digit ip = true -> str_forall is_digit fp = true ->
  exists t, match_unsigned (ip ++ "." ++ fp ++ post) = Some t.
Proof.
  intros Hi Hf Hdi Hdf. unfold match_unsigned.
  rewrite (take_digits_before_point _ _ Hdi).
  destruct ip as [|i0 ip]; [congruence|].
  rewrite (take_digits_app _ _ Hdf).
  destruct fp as [|f0 fp]; [congruence|]. simpl. eauto.
Qed.

Lemma match_weight_complete (t post : string) :
  decimal_form t -> exists t', match_weight (t ++ post) = Some t'.
Proof.
  intros (sg & ip & fp & Hs & Hi & Hf & Hdi & Hdf & ->).
  destruct (match_unsigned_complete ip fp post Hi Hf Hdi Hdf) as [u Hu].
  assert (E : (sg ++ ip ++ "." ++ fp) ++ post = sg ++ ip ++ "." ++ fp ++ post).
  { rewrite ?append_assoc; simpl; rewrite ?append_assoc; reflexivity. }
  rewrite E; clear E. unfold match_weight.
  destruct Hs as [->|[->| ->]]; cbn [String.append] in *.
  - destruct ip as [|i0 ip]; [congruence|].
    simpl in Hdi; apply andb_true_iff in Hdi as [Hc _].
    cbn [String.append] in *. rewrite (digit_not_sign _ Hc), Hu. eauto.
  - cbn [is_sign Ascii.eqb Bool.eqb orb]. rewrite Hu. eauto.
  - cbn [is_sign Ascii.eqb Bool.eqb orb]. rewrite Hu. eauto.
Qed.

Lemma search_weight_unfold (s : string) :
  search_weight s
  = match match_weight s with
    | Some group => Some group
    | None =>
        match s with
        | EmptyString => None
        | String _ s' => search_weight s'
        end
    end.
Proof. destruct s; reflexivity. Qed.

Lemma search_weight_complete (s : string) :
  has_decimal s -> exists t, search_weight s = Some t.
Proof.
  intros (pre & t & post & Hd & ->).
  induction pre as [|c pre IH].
  - cbn [String.append]. rewrite search_weight_unfold.
    destruct (match_weight_complete t post Hd) as [t' Ht'].
    rewrite Ht'. eauto.
  - cbn [String.append]. rewrite search_weight_unfold.
    destruct (match_weight (String c (pre ++ t ++ post))); eauto.
Qed.

Lemma float_of_unsigned_match (neg : bool) (s t : string) :
  match_unsigned s = Some t -> exists w, float_of_unsigned neg t = Some w.
Proof.
  intros H.
  destruct (match_unsigned_sound _ _ H)
    as (ip & fp & post & Hi & Hf & Hdi & Hdf & -> & _).
  unfold float_of_unsigned.
  rewrite (take_digits_before_point _ _ Hdi), (take_digits_all _ Hdf).
  destruct ip; [congruence|]. destruct fp; [congruence|]. eauto.
Qed.

Lemma float_of_decimal_match (s t : string) :
  match_weight s = Some t -> exists w, float_of_decimal t = Some w.
Proof.
  unfold match_weight, float_of_decimal; intros H.
  assert (Hu : forall u, match_unsigned u = Some t ->
                 exists w, float_of_unsigned (fst (split_sign t))
                             (snd (split_sign t)) = Some w).
  { intros u Hu.
    destruct (match_unsigned_sound _ _ Hu)
      as (ip & fp & post & Hi & _ & Hdi & _ & E & _).
    destruct ip as [|i0 ip]; [congruence|].
    simpl in Hdi; apply andb_true_iff in Hdi as [Hc _].
    assert (Hsp : split_sign t = (false, t)).
    { subst t. clear - Hc.
      destruct i0 as [[] [] [] [] [] [] [] []]; try discriminate; reflexivity. }
    rewrite Hsp. exact (float_of_unsigned_match false u t Hu). }
  assert (Hfin : forall u, match_unsigned u = Some t ->
                   exists w, (let '(neg, body) := split_sign t in
                              float_of_unsigned neg body) = Some w).
  { intros u Hu'. destruct (Hu u Hu') as [w Hw].
    destruct (split_sign t); eauto. }
  destruct s as [|c body]; [eauto|].
  destruct (is_sign c) eqn:Hc; [|eauto].
  destruct (match_unsigned body) as [t'|] eqn:Hb; [|eauto].
  inversion H; subst; clear H.
  unfold is_sign in Hc; apply orb_true_iff in Hc.
  destruct Hc as [Hc|Hc]; apply Ascii.eqb_eq in Hc; subst; simpl;
    eapply float_of_unsigned_match; eauto.
Qed.

Lemma search_weight_is_match (s t : string) :
  search_weight s = Some t -> exists u, match_weight u = Some t.
Proof.
  induction s as [|c s IH]; simpl.
  - destruct (match_weight "") eqn:Hm; [|discriminate].
    intros E; inversion E; subst; eauto.
  - destruct (match_weight (String c s)) eqn:Hm; [|exact IH].
    intros E; inversion E; subst; eauto.
Qed.

(** A line carries no reading exactly when its sanitized form is empty or
    holds no decimal. *)
Lemma extract_none_iff (line : string) :
  extract line = None <-> clean line = "" \/ ~ has_decimal (clean line).
Proof.
  unfold extract; split.
  - destruct (clean line =? "")%string eqn:He.
    + left; now apply eqb_empty.
    + destruct (search_weight (clean line)) as [t|] eqn:Hs.
      * destruct (search_weight_is_match _ _ Hs) as [u Hu].
        destruct (float_of_decimal_match _ _ Hu) as [w Hw].
        rewrite Hw; discriminate.
      * intros _; right; intros Hd.
        destruct (search_weight_complete _ Hd) as [t Ht]; congruence.
  - intros [He|Hn].
    + rewrite He; reflexivity.
    + destruct (clean line =? "")%string; [reflexivity|].
      destruct (search_weight (clean line)) as [t|] eqn:Hs; [|reflexivity].
      exfalso; apply Hn; eapply search_weight_sound; eauto.
Qed.

(** ** The reading extractor *)

(** C1.  On the line [-1.200kg] the extractor yields the weight -1.2, the
    float that [-1.2] denotes, but with the unit [g]: the sanitized line
    contains [g], the test for [g] comes first, and the branch for [kg] is
    not reached. *)
Theorem extract_kg_line_yields_grams :
  extract "-1.200kg" = Some (S754_finite true 5404319552844595 (-52), "g")
  /\ float_of_decimal "-1.2" = Some (S754_finite true 5404319552844595 (-52))
  /\ unit_of (clean "-1.200kg") <> "kg".
Proof. repeat split. vm_compute. discriminate. Qed.

(** C3.  The sanitizer keeps, in order, exactly the characters of its
    class, which are the digits, [+], [-], [.], [g], [k] and also the comma,
    and no upper-case letter: [1,5 g] keeps its comma and [2.5 KG] loses its
    unit. *)
Theorem clean_keeps_comma_drops_upper_case :
  (forall line,
      clean line
      = str_filter (fun c => is_digit c || Ascii.eqb c "+" || Ascii.eqb c ","
                             || Ascii.eqb c "-" || Ascii.eqb c "."
                             || Ascii.eqb c "g" || Ascii.eqb c "k") line)
  /\ clean "1,5 g" = "1,5g"
  /\ clean "2.5 KG" = "2.5".
Proof.
  split; [|split; reflexivity].
  intros line; unfold clean.
  induction line as [|c line IH]; simpl; [reflexivity|].
  now rewrite in_kept_class_chars, IH.
Qed.

Lemma prefix_cons (a b : ascii) (s1 s2 : string) :
  prefix (String a s1) (String b s2) = Ascii.eqb a b && prefix s1 s2.
Proof.
  cbn [prefix]. destruct (ascii_dec a b) as [->|Hn].
  - now rewrite Ascii.eqb_refl.
  - apply Ascii.eqb_neq in Hn. now rewrite Hn.
Qed.

Lemma prefix_g_of_kg (s : string) :
  prefix "kg" s = true -> str_in "g" s = true.
Proof.
  destruct s as [|c s]; [discriminate|].
  rewrite prefix_cons. intros H; apply andb_true_iff in H as [_ H].
  cbn [str_in]. destruct s as [|d s]; [discriminate|].
  cbn [str_in]. rewrite H. apply orb_true_r.
Qed.

Lemma str_in_kg_g (s : string) : str_in "kg" s = true -> str_in "g" s = true.
Proof.
  induction s as [|c s IH]; intros H.
  - discriminate.
  - cbn [str_in] in H. apply orb_true_iff in H as [H|H].
    + now apply prefix_g_of_kg.
    + cbn [str_in]. rewrite (IH H). apply orb_true_r.
Qed.

Lemma unit_of_cases (s : string) : unit_of s = "g" \/ unit_of s = "?".
Proof.
  unfold unit_of.
  destruct (str_in "g" (lower s)) eqn:Hg; [now left|].
  destruct (str_in "kg" (lower s)) eqn:Hk; [|now right].
  rewrite (str_in_kg_g _ Hk) in Hg; discriminate.
Qed.

(** C10.  The extractor never returns the unit [kg]: a sanitized line that
    contains [kg] contains [g], and the test for [g] comes first, so the
    unit of every reading is [g] or [?]. *)
Theorem extract_never_kilograms (line : string) (w : float64) (u : string) :
  extract line = Some (w, u) ->
  (str_in "kg" (lower (clean line)) = true ->
   str_in "g" (lower (clean line)) = true)
  /\ u <> "kg" /\ (u = "g" \/ u = "?").
Proof.
  unfold extract; intros H.
  split; [apply str_in_kg_g|].
  destruct (clean line =? "")%string; [discriminate|].
  destruct (search_weight (clean line)); [|discriminate].
  destruct (float_of_decimal s); [|discriminate].
  inversion H; subst; clear H.
  destruct (unit_of_cases (clean line)) as [E|E]; rewrite E;
    split; auto; discriminate.
Qed.

Lemma extract_never_kilograms_witness :
  extract "-1.200kg" = Some (S754_finite true 5404319552844595 (-52), "g")
  /\ (str_in "kg" (lower (clean "-1.200kg")) = true ->
      str_in "g" (lower (clean "-1.200kg")) = true)
  /\ "g" <> "kg" /\ ("g" = "g" \/ "g" = "?").
Proof.
  split; [reflexivity|].
  apply (extract_never_kilograms "-1.200kg"
           (S754_finite true 5404319552844595 (-52)) "g").
  reflexivity.
Defined.

(** C8.  A line whose sanitized form is empty or holds no optional sign,
    digits, point, digits yields no reading, and [process_data] returns
    with the whole state as it was; after the line the read loop has left
    the ledger, the counter and the device label as they were.  The line
    [ERROR] is one. *)
Theorem no_reading_leaves_state (combo line : string) (st : app) :
  clean line = "" \/ ~ has_decimal (clean line) ->
  extract line = None
  /\ process_data combo line st = st
  /\ data (save_temp_data (process_data combo line st)) = data st
  /\ sample_counter (save_temp_data (process_data combo line st))
     = sample_counter st
  /\ device_name (save_temp_data (process_data combo line st))
     = device_name st
  /\ process_data combo "ERROR" st = st.
Proof.
  intros H. apply extract_none_iff in H.
  unfold process_data. rewrite H. auto 10.
Qed.

Lemma no_reading_leaves_state_witness :
  (clean "ERROR" = "" \/ ~ has_decimal (clean "ERROR"))
  /\ extract "ERROR" = None
  /\ process_data "" "ERROR" (init NoFile) = init NoFile.
Proof.
  split; [left; reflexivity|].
  destruct (no_reading_leaves_state "" "ERROR" (init NoFile)) as (H1 & H2 & _).
  - left; reflexivity.
  - split; [exact H1 | exact H2].
Defined.

(** ** The ledger *)

(** C7.  For a line that carries a reading, [process_data] adds one row at
    the end of the ledger: its name is [Sample_] followed by the counter,
    its device is the text of the preset box, else the last device name,
    else [Unknown], its comment is empty; the counter goes up by one and
    the device becomes the last device name.  [process_data] is a total
    function: there is no input on which it fails. *)
Theorem append_postcondition (combo line : string) (st : app)
    (w : float64) (u : string) :
  extract line = Some (w, u) ->
  let device :=
    if (combo =? "")%string
    then if (device_name st =? "")%string then "Unknown" else device_name st
    else combo in
  let st' := process_data combo line st in
  data st'
  = (data st
     ++ [{| row_sample_name := "Sample_" ++ str_of_int (sample_counter st);
            row_weight := w; row_unit := u; row_device := device;
            row_comments := "";
            row_iid := "I" ++ zero_pad 3 (hex_upper (tree_serial (tree st) + 1))
         |}])%list
  /\ sample_counter st' = sample_counter st + 1
  /\ device_name st' = device.
Proof.
  intros H; unfold process_data; rewrite H.
  unfold append_reading, str_or; cbn [tree_insert data sample_counter
    device_name save_temp_data fst snd].
  destruct (combo =? "")%string eqn:Hc.
  - destruct (device_name st =? "")%string; repeat split; reflexivity.
  - rewrite Hc; repeat split; reflexivity.
Qed.

Lemma append_postcondition_witness :
  extract "+012.345 g ST"
  = Some (S754_finite false 6949617174986097 (-49), "g")
  /\ data (process_data "" "+012.345 g ST" (init NoFile))
     = [{| row_sample_name := "Sample_1";
           row_weight := S754_finite false 6949617174986097 (-49);
           row_unit := "g"; row_device := "Unknown"; row_comments := "";
           row_iid := "I001" |}].
Proof.
  split; [reflexivity|].
  exact (proj1 (append_postcondition "" "+012.345 g ST" (init NoFile)
                  (S754_finite false 6949617174986097 (-49)) "g" eq_refl)).
Defined.



(** A ledger of two readings, and its two rows. *)
Definition two_readings : app :=
  process_data "" "2.5 g" (process_data "" "1.5 g" (init NoFile)).

Definition first_row : row :=
  {| row_sample_name := "Sample_1";
     row_weight := S754_finite false 6755399441055744 (-52);
     row_unit := "g"; row_device := "Unknown"; row_comments := "";
     row_iid := "I001" |}.


(** ** Sample numbers *)

Lemma sample_counter_process_data (combo line : string) (st : app) :
  sample_counter (process_data combo line st)
  = match extract line with
    | Some _ => sample_counter st + 1
    | None => sample_counter st
    end.
Proof.
  unfold process_data. destruct (extract line) as [[w u]|]; reflexivity.
Qed.

Lemma data_length_process_data (combo line : string) (st : app) :
  List.length (data (process_data combo line st))
  = match extract line with
    | Some _ => S (List.length (data st))
    | None => List.length (data st)
    end.
Proof.
  unfold process_data. destruct (extract line) as [[w u]|]; [|reflexivity].
  unfold append_reading; simpl. rewrite length_app; simpl. lia.
Qed.

Lemma sample_counter_step_line (combo line : string) (st : app) :
  sample_counter (step (Line combo line) st)
  = match extract (strip line) with
    | Some _ => sample_counter st + 1
    | None => sample_counter st
    end.
Proof. apply sample_counter_process_data. Qed.

Lemma data_length_step_line (combo line : string) (st : app) :
  List.length (data (step (Line combo line) st))
  = match extract (strip line) with
    | Some _ => S (List.length (data st))
    | None => List.length (data st)
    end.
Proof. apply data_length_process_data. Qed.

Lemma sample_counter_save_edit (rowid : string) (col_idx : Z) (v : string)
    (st : app) :
  sample_counter (step (Edit rowid col_idx v) st) = sample_counter st.
Proof.
  unfold step, save_edit. now destruct (tree_set rowid col_idx v (tree st)).
Qed.

Lemma edit_rows_length (rowid : string) (col_idx : Z) (v : string)
    (rows : list row) :
  List.length (edit_rows rowid col_idx v rows) = List.length rows.
Proof.
  induction rows as [|x rows IH]; simpl; [reflexivity|].
  destruct (row_iid x =? rowid)%string; simpl; congruence.
Qed.

Lemma data_length_save_edit (rowid : string) (col_idx : Z) (v : string)
    (st : app) :
  List.length (data (step (Edit rowid col_idx v) st)) = List.length (data st).
Proof.
  unfold step, save_edit.
  destruct (tree_set rowid col_idx v (tree st)); [|reflexivity].
  simpl. apply edit_rows_length.
Qed.

(** The counter never goes below 1. *)
Lemma sample_counter_step_positive (ev : event) (st : app) :
  1 <= sample_counter st -> 1 <= sample_counter (step ev st).
Proof.
  intros H. destruct ev as [combo line| rowid col_idx v | [|]].
  - rewrite sample_counter_step_line.
    destruct (extract (strip line)); lia.
  - now rewrite sample_counter_save_edit.
  - simpl; lia.
  - exact H.
Qed.

Lemma sample_counter_run_positive (evs : list event) (st : app) :
  1 <= sample_counter st -> 1 <= sample_counter (run evs st).
Proof.
  revert st; induction evs as [|ev evs IH]; intros st H; [exact H|].
  apply IH, sample_counter_step_positive, H.
Qed.

(** Without a confirmed reset, the numbers given out are consecutive from
    the counter, the counter ends after the last of them, and the ledger
    has grown by one row for each. *)
Lemma assigned_ids_count (evs : list event) (st : app) :
  forallb (fun ev => negb (is_confirmed_reset ev)) evs = true ->
  assigned_ids evs st
  = count_from (sample_counter st) (List.length (assigned_ids evs st))
  /\ sample_counter (run evs st)
     = sample_counter st + Z.of_nat (List.length (assigned_ids evs st))
  /\ List.length (data (run evs st))
     = (List.length (data st) + List.length (assigned_ids evs st))%nat.
Proof.
  revert st; induction evs as [|ev evs IH]; intros st H.
  - simpl; repeat split; lia.
  - cbn [forallb] in H; apply andb_true_iff in H as [Hev Hevs].
    destruct (IH (step ev st) Hevs) as (Hids & Hc & Hl).
    cbn [assigned_ids run fold_left]. fold (run evs (step ev st)).
    destruct ev as [combo line| rowid col_idx v | [|]].
    + rewrite sample_counter_step_line in Hids, Hc.
      rewrite data_length_step_line in Hl.
      destruct (extract (strip line)) as [rd|].
      * cbn [List.app List.length count_from].
        repeat split; [f_equal; exact Hids | lia | lia].
      * cbn [List.app List.length] in *. repeat split; assumption.
    + rewrite sample_counter_save_edit in Hids, Hc.
      rewrite data_length_save_edit in Hl.
      cbn [List.app]. repeat split; assumption.
    + discriminate.
    + cbn [List.app]. repeat split; assumption.
Qed.

(** A session: two readings, a line without one, an edit and a reset that
    the operator declines. *)
Definition short_session : list event :=
  [Line "" "+1.5 g"; Line "" "ERROR"; Edit "I001" 4 "dried";
   Line "" "2.5 g"; Reset false].

(** ** Checkpoint *)

Lemma load_after_save (st st0 : app) :
  TEMP_FILE st0 = TEMP_FILE (save_temp_data st) ->
  data (load_temp_data true st0) = data st
  /\ sample_counter (load_temp_data true st0) = sample_counter st
  /\ device_name (load_temp_data true st0) = device_name st
  /\ TEMP_FILE (load_temp_data true st0) = TEMP_FILE (save_temp_data st).
Proof.
  intros H. unfold load_temp_data. rewrite H. simpl. auto.
Qed.

(** C5.  After [save_temp_data] on any state, a new process that finds the
    file and whose operator accepts the restore has the same rows in the
    same order with the same fields, the same counter and the same device
    name, and the checkpoint is still there; the same holds for a load in
    the process that saved. *)
Theorem checkpoint_round_trip (st : app) :
  let restarted := load_temp_data true (init (TEMP_FILE (save_temp_data st))) in
  let reloaded := load_temp_data true (save_temp_data st) in
  (data restarted = data st
   /\ sample_counter restarted = sample_counter st
   /\ device_name restarted = device_name st
   /\ TEMP_FILE restarted = TEMP_FILE (save_temp_data st))
  /\ (data reloaded = data st
      /\ sample_counter reloaded = sample_counter st
      /\ device_name reloaded = device_name st).
Proof.
  split.
  - apply load_after_save; reflexivity.
  - destruct (load_after_save st (save_temp_data st) eq_refl)
      as (H1 & H2 & H3 & _); auto.
Qed.

(** ** Export *)

(** C2 as the specification states it: every measurement is exported, in
    insertion order, with its weight in three decimals. *)
Definition export_three_decimals : Prop :=
  forall (export_time : string) (st : app) (file : csv_records)
         (i : nat) (r : row),
    nth_error (data st) i = Some r ->
    nth_error (save_data export_time st file) (List.length file + 2 + i)
    = Some [row_sample_name r; format_3f (row_weight r); row_unit r;
            row_device r; row_comments r].

(** The ledger after the one line [1.5 g]. *)
Definition one_reading : app := process_data "" "1.5 g" (init NoFile).

(** C2, counterexample.  The weight 1.5 is exported as [1.5], not as
    [1.500]. *)
Lemma export_weight_not_three_decimals :
  data one_reading = [first_row]
  /\ nth_error (save_data "2024-05-01 10:00:00 " one_reading []) 2
     = Some ["Sample_1"; "1.5"; "g"; "Unknown"; ""]
  /\ format_3f (row_weight first_row) = "1.500"
  /\ ~ export_three_decimals.
Proof.
  split; [reflexivity|]. split; [reflexivity|]. split; [reflexivity|].
  intros H.
  specialize (H "2024-05-01 10:00:00 " one_reading [] 0%nat first_row eq_refl).
  vm_compute in H. discriminate H.
Qed.

(** C2, amended.  On an empty ledger an export writes nothing.  Otherwise
    it appends to the file, after what the file held, a row with the time
    of the export, the header row, and one row per measurement in
    insertion order with the fields sample name, weight, unit, device and
    comment, the weight being the text [str] gives for the stored float. *)
Theorem export_rows (export_time : string) (st : app) (file : csv_records) :
  (data st = [] -> save_data export_time st file = file)
  /\ (data st <> [] ->
      save_data export_time st file
      = (file
         ++ [("Exported: " ++ export_time)%string]
         :: ["Sample Name"; "Weight"; "Units"; "Device"; "Comments"]
         :: map (fun r => [row_sample_name r; float_repr (row_weight r);
                           row_unit r; row_device r; row_comments r])
              (data st))%list
      /\ List.length (save_data export_time st file)
         = (List.length file + 2 + List.length (data st))%nat
      /\ firstn (List.length file) (save_data export_time st file) = file
      /\ nth_error (save_data export_time st file) (List.length file)
         = Some [("Exported: " ++ export_time)%string]
      /\ nth_error (save_data export_time st file) (List.length file + 1)
         = Some ["Sample Name"; "Weight"; "Units"; "Device"; "Comments"])
  /\ (forall (i : nat) (r : row),
         nth_error (data st) i = Some r ->
         nth_error (save_data export_time st file) (List.length file + 2 + i)
         = Some [row_sample_name r; float_repr (row_weight r); row_unit r;
                 row_device r; row_comments r]).
Proof.
  unfold save_data. split; [|split].
  - intros H. now rewrite H.
  - intros H. destruct (data st) as [|r0 rows] eqn:Hd; [congruence|].
    split; [reflexivity|]. repeat split.
    + rewrite length_app; simpl; rewrite length_map; lia.
    + rewrite firstn_app, Nat.sub_diag, firstn_all. simpl. apply app_nil_r.
    + rewrite nth_error_app2 by lia. now rewrite Nat.sub_diag.
    + rewrite nth_error_app2 by lia.
      replace (List.length file + 1 - List.length file)%nat with 1%nat by lia.
      reflexivity.
  - intros i r H.
    destruct (data st) as [|r0 rows] eqn:Hd; [destruct i; discriminate|].
    rewrite nth_error_app2 by lia.
    replace (List.length file + 2 + i - List.length file)%nat
      with (S (S i)) by lia.
    cbn [nth_error]. rewrite nth_error_map, H. reflexivity.
Qed.

Lemma export_rows_witness :
  data (init NoFile) = []
  /\ save_data "2024-05-01 10:00:00 " (init NoFile) [["kept"]] = [["kept"]]
  /\ data one_reading <> []
  /\ save_data "2024-05-01 10:00:00 " one_reading [["kept"]]
     = [["kept"]; ["Exported: 2024-05-01 10:00:00 "];
        ["Sample Name"; "Weight"; "Units"; "Device"; "Comments"];
        ["Sample_1"; "1.5"; "g"; "Unknown"; ""]]
  /\ nth_error (data one_reading) 0 = Some first_row
  /\ nth_error (save_data "2024-05-01 10:00:00 " one_reading [["kept"]]) 3
     = Some ["Sample_1"; float_repr (row_weight first_row); "g"; "Unknown"; ""].
Proof.
  assert (Hne : data one_reading <> []) by discriminate.
  split; [reflexivity|].
  split; [exact (proj1 (export_rows "2024-05-01 10:00:00 " (init NoFile)
                          [["kept"]]) eq_refl)|].
  split; [exact Hne|].
  split; [exact (proj1 (proj1 (proj2 (export_rows "2024-05-01 10:00:00 "
                                        one_reading [["kept"]])) Hne))|].
  split; [reflexivity|].
  exact (proj2 (proj2 (export_rows "2024-05-01 10:00:00 " one_reading
                         [["kept"]])) 0%nat first_row eq_refl).
Defined.

(** ** Frame reassembly *)

Lemma prefix_empty_r (a : ascii) (sep : string) : prefix (String a sep) "" = false.
Proof. reflexivity. Qed.

Lemma prefix_nil (s : string) : prefix "" s = true.
Proof. destruct s; reflexivity. Qed.

Lemma prefix_app (sep a c : string) :
  prefix sep a = true -> prefix sep (a ++ c) = true.
Proof.
  revert a; induction sep as [|x sep IH]; intros a H; [apply prefix_nil|].
  destruct a as [|y a]; [discriminate|].
  cbn [String.append]. rewrite prefix_cons in *.
  apply andb_true_iff in H as [Hxy H]. now rewrite Hxy, (IH _ H).
Qed.

Lemma prefix_length (sep a : string) :
  prefix sep a = true -> (String.length sep <= String.length a)%nat.
Proof.
  revert a; induction sep as [|x sep IH]; intros a H; [simpl; lia|].
  destruct a as [|y a]; [discriminate|].
  rewrite prefix_cons in H. apply andb_true_iff in H as [_ H].
  specialize (IH _ H). simpl; lia.
Qed.

Lemma prefix_app_long (sep a c : string) :
  (String.length sep <= String.length a)%nat ->
  prefix sep (a ++ c) = prefix sep a.
Proof.
  revert a; induction sep as [|x sep IH]; intros a H;
    [now rewrite !prefix_nil|].
  destruct a as [|y a]; [simpl in H; lia|].
  cbn [String.append]. rewrite !prefix_cons.
  rewrite IH; [reflexivity | simpl in H; lia].
Qed.

Lemma skip_app (n : nat) (a c : string) :
  (n <= String.length a)%nat -> skip n (a ++ c) = skip n a ++ c.
Proof.
  revert a; induction n as [|n IH]; intros a H; [reflexivity|].
  destruct a as [|y a]; [simpl in H; lia|].
  simpl. apply IH. simpl in H; lia.
Qed.

Lemma prefix_skip (sep s : string) :
  prefix sep s = true -> s = sep ++ skip (String.length sep) s.
Proof.
  revert s; induction sep as [|x sep IH]; intros s H; [reflexivity|].
  destruct s as [|y s]; [discriminate|].
  rewrite prefix_cons in H. apply andb_true_iff in H as [Hxy H].
  apply Ascii.eqb_eq in Hxy; subst y. simpl. now rewrite <- (IH _ H).
Qed.

Lemma split_once_unfold (sep s : string) :
  split_once sep s
  = if prefix sep s then Some (EmptyString, skip (String.length sep) s)
    else
      match s with
      | EmptyString => None
      | String c s' =>
          match split_once sep s' with
          | Some (line, rest) => Some (String c line, rest)
          | None => None
          end
      end.
Proof. destruct s; reflexivity. Qed.

(** The two parts are what stands before and after an occurrence of the
    separator. *)
Lemma split_once_spec (sep s line rest : string) :
  split_once sep s = Some (line, rest) -> s = line ++ sep ++ rest.
Proof.
  revert line rest; induction s as [|c s IH]; intros line rest;
    rewrite split_once_unfold.
  - destruct (prefix sep "") eqn:Hp; [|discriminate].
    intros E; inversion E; subst. now apply prefix_skip.
  - destruct (prefix sep (String c s)) eqn:Hp.
    + intros E; inversion E; subst. now apply prefix_skip.
    + destruct (split_once sep s) as [[l r]|]; [|discriminate].
      intros E; inversion E; subst. simpl. now rewrite <- (IH _ _ eq_refl).
Qed.

(** More text after the buffer does not move its first separator. *)
Lemma split_once_app (sep a c line rest : string) :
  split_once sep a = Some (line, rest) ->
  split_once sep (a ++ c) = Some (line, rest ++ c).
Proof.
  revert line rest; induction a as [|y a IH]; intros line rest;
    rewrite split_once_unfold.
  - destruct (prefix sep "") eqn:Hp; [|discriminate].
    intros E; inversion E; subst.
    rewrite split_once_unfold, (prefix_app _ _ _ Hp).
    rewrite skip_app by now apply prefix_length. reflexivity.
  - destruct (prefix sep (String y a)) eqn:Hp.
    + intros E; inversion E; subst.
      rewrite split_once_unfold, (prefix_app _ _ _ Hp).
      rewrite skip_app by now apply prefix_length. reflexivity.
    + destruct (split_once sep a) as [[l r]|] eqn:Hs; [|discriminate].
      intros E; inversion E; subst.
      rewrite split_once_unfold. cbn [String.append].
      change (String y (a ++ c)) with (String y a ++ c).
      rewrite prefix_app_long, Hp.
      * cbn [String.append]. now rewrite (IH _ _ eq_refl).
      * apply split_once_spec in Hs. subst a.
        simpl. rewrite !length_append. lia.
Qed.

(** The line before the first separator holds none. *)
Lemma split_once_line (sep s line rest : string) :
  sep <> "" ->
  split_once sep s = Some (line, rest) -> split_once sep line = None.
Proof.
  intros Hsep. revert line rest; induction s as [|c s IH]; intros line rest;
    rewrite split_once_unfold.
  - destruct sep; [congruence|]. discriminate.
  - destruct (prefix sep (String c s)) eqn:Hp.
    + intros E; inversion E; subst. destruct sep; [congruence|]. reflexivity.
    + destruct (split_once sep s) as [[l r]|] eqn:Hs; [|discriminate].
      intros E; injection E as <- <-.
      rewrite split_once_unfold, (IH _ _ eq_refl).
      destruct (prefix sep (String c l)) eqn:Hq; [|reflexivity].
      apply split_once_spec in Hs. subst s.
      change (String c (l ++ sep ++ r)) with (String c l ++ sep ++ r) in Hp.
      rewrite (prefix_app _ _ _ Hq) in Hp. discriminate.
Qed.

Lemma split_once_shorter (buffer line rest : string) :
  split_once CRLF buffer = Some (line, rest) ->
  (String.length rest < String.length buffer)%nat.
Proof.
  intros H. apply split_once_spec in H. subst buffer.
  rewrite !length_append. simpl. lia.
Qed.

Lemma split_once_empty : split_once CRLF "" = None.
Proof. reflexivity. Qed.

Section ReassemblerFacts.

Variable St : Type.
Variable on_line : string -> St -> St.

(** Any fuel from the length of the buffer up gives the same result: the
    loop has stopped by itself. *)
Lemma drain_fuel_enough (n m : nat) (buffer : string) (st : St) :
  (String.length buffer <= n)%nat -> (String.length buffer <= m)%nat ->
  drain_fuel on_line n buffer st = drain_fuel on_line m buffer st.
Proof.
  revert m buffer st; induction n as [|n IH]; intros m buffer st Hn Hm.
  - destruct buffer; [|simpl in Hn; lia]. now destruct m.
  - destruct m as [|m].
    + destruct buffer; [|simpl in Hm; lia]. reflexivity.
    + simpl. destruct (split_once CRLF buffer) as [[line rest]|] eqn:Hs;
        [|reflexivity].
      apply split_once_shorter in Hs. apply IH; lia.
Qed.

Lemma drain_enough (n : nat) (buffer : string) (st : St) :
  (String.length buffer <= n)%nat ->
  drain_fuel on_line n buffer st = drain on_line buffer st.
Proof. intros H. apply drain_fuel_enough; [exact H | lia]. Qed.

Lemma drain_step (buffer : string) (st : St) :
  drain on_line buffer st
  = match split_once CRLF buffer with
    | None => (buffer, st)
    | Some (line, rest) => drain on_line rest (on_line line st)
    end.
Proof.
  unfold drain at 1. destruct (String.length buffer) eqn:Hl.
  - destruct buffer; [reflexivity | discriminate].
  - simpl. destruct (split_once CRLF buffer) as [[line rest]|] eqn:Hs;
      [|reflexivity].
    apply split_once_shorter in Hs. apply drain_enough; lia.
Qed.

(** What the loop leaves in the buffer holds no separator. *)
Lemma drain_no_crlf (buffer : string) (st : St) :
  split_once CRLF (fst (drain on_line buffer st)) = None.
Proof.
  remember (String.length buffer) as n eqn:Hn.
  assert (Hle : (String.length buffer <= n)%nat) by lia. clear Hn.
  revert buffer st Hle; induction n as [|n IH]; intros buffer st Hle;
    rewrite drain_step.
  - destruct buffer; [reflexivity | simpl in Hle; lia].
  - destruct (split_once CRLF buffer) as [[line rest]|] eqn:Hs;
      [|exact Hs].
    apply split_once_shorter in Hs. apply IH; lia.
Qed.

(** Draining a buffer and then what is left of it with more text after
    is draining the whole at once. *)
Lemma drain_app (a c : string) (st : St) :
  drain on_line (a ++ c) st
  = let '(rest, st') := drain on_line a st in drain on_line (rest ++ c) st'.
Proof.
  remember (String.length a) as n eqn:Hn.
  assert (Hle : (String.length a <= n)%nat) by lia. clear Hn.
  revert a st Hle; induction n as [|n IH]; intros a st Hle.
  - destruct a; [reflexivity | simpl in Hle; lia].
  - rewrite (drain_step a).
    destruct (split_once CRLF a) as [[line rest]|] eqn:Hs; [|reflexivity].
    rewrite (drain_step (a ++ c)), (split_once_app _ _ c _ _ Hs).
    apply split_once_shorter in Hs. apply IH; lia.
Qed.

Lemma drain_without_crlf (buffer : string) (st : St) :
  split_once CRLF buffer = None -> drain on_line buffer st = (buffer, st).
Proof. intros H. now rewrite drain_step, H. Qed.

End ReassemblerFacts.

Lemma decode_app (a b : list Byte.byte) :
  decode (a ++ b) = decode a ++ decode b.
Proof. induction a as [|x a IH]; simpl; [reflexivity | now rewrite IH]. Qed.

(** The text that splits into [lines] and leaves [rest]. *)
Fixpoint unsplit (lines : list string) (rest : string) : string :=
  match lines with
  | [] => rest
  | line :: lines' => line ++ CRLF ++ unsplit lines' rest
  end.

(** The loop cuts the buffer at every separator, from the left, and hands
    the lines over in that order, whatever is done with them. *)
Lemma drain_lines (buffer : string) :
  exists lines rest,
    buffer = unsplit lines rest
    /\ split_once CRLF rest = None
    /\ Forall (fun line => split_once CRLF line = None) lines
    /\ forall (St : Type) (on_line : string -> St -> St) (st : St),
         drain on_line buffer st
         = (rest, fold_left (fun s line => on_line line s) lines st).
Proof.
  remember (String.length buffer) as n eqn:Hn.
  assert (Hle : (String.length buffer <= n)%nat) by lia. clear Hn.
  revert buffer Hle; induction n as [|n IH]; intros buffer Hle.
  - destruct buffer; [|simpl in Hle; lia].
    exists [], ""; repeat split; auto.
  - destruct (split_once CRLF buffer) as [[line r]|] eqn:Hs.
    + pose proof (split_once_shorter _ _ _ Hs) as Hlt.
      destruct (IH r ltac:(lia)) as (lines & rest & Hr & Hnone & Hall & Hrun).
      exists (line :: lines), rest; repeat split; auto.
      * cbn [unsplit]. rewrite <- Hr. now apply split_once_spec.
      * constructor; [|exact Hall].
        apply (split_once_line CRLF buffer line r); [discriminate | exact Hs].
      * intros St on_line st. rewrite drain_step, Hs. apply Hrun.
    + exists [], buffer; repeat split; auto.
      intros St on_line st. now rewrite drain_step, Hs.
Qed.

Lemma fold_record_line (lines seen : list string) :
  fold_left (fun s line => record_line line s) lines seen = (seen ++ lines)%list.
Proof.
  revert seen; induction lines as [|l lines IH]; intros seen; simpl.
  - now rewrite app_nil_r.
  - rewrite IH. unfold record_line. now rewrite <- app_assoc.
Qed.

Section ChunkingInvariance.

Variable St : Type.
Variable on_line : string -> St -> St.

Lemma read_tcp_drain (recvs : list (list Byte.byte)) :
  forall (buffer : string) (st : St),
    Forall (fun raw => raw <> []) recvs ->
    split_once CRLF buffer = None ->
    read_tcp on_line recvs buffer st
    = drain on_line (buffer ++ decode (List.concat recvs)) st.
Proof.
  induction recvs as [|raw more IH]; intros buffer st Hne Hb.
  - simpl. rewrite append_empty_r. symmetry. now apply drain_without_crlf.
  - inversion Hne as [|? ? Hraw Hmore]; subst.
    destruct raw as [|b raw]; [congruence|].
    cbn [read_tcp]. unfold feed.
    cbn [List.concat]. rewrite decode_app, <- append_assoc.
    rewrite (drain_app St on_line (buffer ++ decode (b :: raw))).
    pose proof (drain_no_crlf St on_line (buffer ++ decode (b :: raw)) st)
      as Hd.
    destruct (drain on_line (buffer ++ decode (b :: raw)) st)
      as [buffer' st'].
    apply IH; assumption.
Qed.

Lemma read_serial_drain (reads : list (list Byte.byte)) :
  forall (buffer : string) (st : St),
    split_once CRLF buffer = None ->
    read_serial on_line reads buffer st
    = drain on_line (buffer ++ decode (List.concat reads)) st.
Proof.
  induction reads as [|raw more IH]; intros buffer st Hb.
  - simpl. rewrite append_empty_r. symmetry. now apply drain_without_crlf.
  - destruct raw as [|b raw]; [now apply IH|].
    cbn [read_serial]. unfold feed.
    cbn [List.concat]. rewrite decode_app, <- append_assoc.
    rewrite (drain_app St on_line (buffer ++ decode (b :: raw))).
    pose proof (drain_no_crlf St on_line (buffer ++ decode (b :: raw)) st)
      as Hd.
    destruct (drain on_line (buffer ++ decode (b :: raw)) st)
      as [buffer' st'].
    apply IH; assumption.
Qed.

Lemma read_tcp_whole (whole : list Byte.byte) (st : St) :
  read_tcp on_line [whole] "" st = drain on_line (decode whole) st.
Proof.
  destruct whole as [|b whole]; [reflexivity|].
  cbn [read_tcp]. unfold feed.
  change ("" ++ decode (b :: whole)) with (decode (b :: whole)).
  now destruct (drain on_line (decode (b :: whole)) st).
Qed.

Lemma read_serial_whole (whole : list Byte.byte) (st : St) :
  read_serial on_line [whole] "" st = drain on_line (decode whole) st.
Proof.
  destruct whole as [|b whole]; [reflexivity|].
  cbn [read_serial]. unfold feed.
  change ("" ++ decode (b :: whole)) with (decode (b :: whole)).
  now destruct (drain on_line (decode (b :: whole)) st).
Qed.

End ChunkingInvariance.

(** C4.  However a byte sequence is cut into chunks, each of at least one
    byte as a read returns them, both read loops hand over the same lines
    in the same order, and leave the same buffer, as on the whole sequence
    in one chunk, whatever is done with a line.  The lines are the texts
    between the separators of the decoded sequence, the buffer what
    follows the last separator. *)
Theorem reassembly_chunking_invariant (St : Type)
    (on_line : string -> St -> St) (chunks : list (list Byte.byte)) (st : St) :
  Forall (fun raw => raw <> []) chunks ->
  read_tcp on_line chunks "" st = read_tcp on_line [List.concat chunks] "" st
  /\ read_serial on_line chunks "" st
     = read_serial on_line [List.concat chunks] "" st
  /\ exists lines rest,
       read_tcp record_line chunks "" [] = (rest, lines)
       /\ read_serial record_line chunks "" [] = (rest, lines)
       /\ read_tcp record_line [List.concat chunks] "" [] = (rest, lines)
       /\ decode (List.concat chunks) = unsplit lines rest
       /\ split_once CRLF rest = None
       /\ Forall (fun line => split_once CRLF line = None) lines
       /\ read_tcp on_line chunks "" st
          = (rest, fold_left (fun s line => on_line line s) lines st).
Proof.
  intros Hne.
  assert (Htcp : forall T (f : string -> T -> T) (s : T),
             read_tcp f chunks "" s = drain f (decode (List.concat chunks)) s).
  { intros T f s. now rewrite read_tcp_drain. }
  assert (Hser : forall T (f : string -> T -> T) (s : T),
             read_serial f chunks "" s = drain f (decode (List.concat chunks)) s).
  { intros T f s. now rewrite read_serial_drain. }
  split; [now rewrite Htcp, read_tcp_whole|].
  split; [now rewrite Hser, read_serial_whole|].
  destruct (drain_lines (decode (List.concat chunks)))
    as (lines & rest & Hd & Hnone & Hall & Hrun).
  exists lines, rest.
  rewrite !Htcp, Hser, read_tcp_whole, !Hrun, fold_record_line.
  repeat split; auto.
Qed.

(** The bytes of [+5.000 g] and a separator, received in two parts. *)
Definition split_reading : list (list Byte.byte) :=
  [list_byte_of_string "+5.0"; list_byte_of_string ("00 g" ++ CRLF)].

Lemma reassembly_chunking_invariant_witness :
  Forall (fun raw => raw <> []) split_reading
  /\ read_tcp (handle_line "") split_reading "" (init NoFile)
     = read_tcp (handle_line "") [List.concat split_reading] "" (init NoFile)
  /\ read_tcp record_line split_reading "" [] = ("", ["+5.000 g"])
  /\ map row_weight
       (data (snd (read_tcp (handle_line "") split_reading "" (init NoFile))))
     = [S754_finite false 5629499534213120 (-50)].
Proof.
  assert (Hne : Forall (fun raw : list Byte.byte => raw <> []) split_reading)
    by (repeat constructor; discriminate).
  split; [exact Hne|].
  split; [|split; reflexivity].
  exact (proj1 (reassembly_chunking_invariant app (handle_line "")
                  split_reading (init NoFile) Hne)).
Defined.


(** * Further properties of the extractor *)

Lemma has_decimal_nonempty (s : string) : has_decimal s -> s <> "".
Proof.
  intros (pre & t & post & (sg & ip & fp & _ & _ & _ & _ & _ & ->) & ->) E.
  destruct pre; [|discriminate].
  destruct sg as [|a sg]; [|discriminate].
  destruct ip as [|b ip]; discriminate.
Qed.

(** X1.  A line yields a reading exactly when its sanitized form holds an
    optional sign, digits, a point and digits somewhere; the weight is then
    the float of the text the search matched. *)
Theorem extract_reading_iff (line : string) :
  ((exists w u, extract line = Some (w, u)) <-> has_decimal (clean line))
  /\ match extract line with
     | Some (w, u) =>
         exists t, search_weight (clean line) = Some t
                   /\ decimal_form t /\ float_of_decimal t = Some w
     | None => True
     end.
Proof.
  split.
  - split.
    + intros (w & u & H).
      destruct (extract_none_iff line) as [_ Hn].
      assert (Hd : ~ (clean line = "" \/ ~ has_decimal (clean line))).
      { intros Hc. rewrite (Hn Hc) in H. discriminate. }
      unfold extract in H.
      destruct (clean line =? "")%string; [discriminate|].
      destruct (search_weight (clean line)) as [t|] eqn:Hs; [|discriminate].
      eapply search_weight_sound; eauto.
    + intros Hd. destruct (extract line) as [[w u]|] eqn:He; [eauto|].
      apply extract_none_iff in He. destruct He as [He|He].
      * exfalso. now apply (has_decimal_nonempty _ Hd).
      * contradiction.
  - unfold extract.
    destruct (clean line =? "")%string; [exact I|].
    destruct (search_weight (clean line)) as [t|] eqn:Hs; [|exact I].
    destruct (float_of_decimal t) as [w|] eqn:Hf; [|exact I].
    exists t; repeat split; auto.
    destruct (search_weight_is_match _ _ Hs) as [u Hu].
    now apply match_weight_sound in Hu.
Qed.

Lemma space_not_kept (c : ascii) : is_space c = true -> in_kept_class c = false.
Proof. destruct c as [[] [] [] [] [] [] [] []]; simpl; auto; discriminate. Qed.

Lemma clean_lstrip (s : string) : clean (lstrip s) = clean s.
Proof.
  unfold clean. induction s as [|c s IH]; [reflexivity|].
  cbn [lstrip]. destruct (is_space c) eqn:Hc; [|reflexivity].
  cbn [str_filter]. now rewrite (space_not_kept _ Hc).
Qed.

Lemma clean_rstrip (s : string) : clean (rstrip s) = clean s.
Proof.
  unfold clean. induction s as [|c s IH]; [reflexivity|].
  cbn [rstrip]. destruct (rstrip s) as [|d r] eqn:Hr.
  - cbn [str_filter] in IH. cbn [str_filter]. rewrite <- IH.
    destruct (is_space c) eqn:Hc.
    + now rewrite (space_not_kept _ Hc).
    + reflexivity.
  - cbn [str_filter]. cbn [str_filter] in IH. now rewrite IH.
Qed.

Lemma clean_strip (s : string) : clean (strip s) = clean s.
Proof. unfold strip. now rewrite clean_rstrip, clean_lstrip. Qed.

Lemma clean_filter (p : ascii -> bool) (s : string) :
  (forall c, in_kept_class c = true -> p c = true) ->
  clean (str_filter p s) = clean s.
Proof.
  intros Hp. unfold clean. induction s as [|c s IH]; [reflexivity|].
  cbn [str_filter]. destruct (p c) eqn:Hc.
  - cbn [str_filter]. now rewrite IH.
  - destruct (in_kept_class c) eqn:Hk; [|exact IH].
    rewrite (Hp _ Hk) in Hc. discriminate.
Qed.

Lemma extract_of_clean (a b : string) : clean a = clean b -> extract a = extract b.
Proof. intros H. unfold extract. now rewrite H. Qed.

(** X2.  Only the characters of the kept class matter to the extractor:
    stripping the line, as the read loops do, sanitizing it beforehand, or
    dropping any characters outside the class (white space, letters,
    undecodable bytes) gives the same reading or the same absence of one. *)
Theorem extract_ignores_other_characters (line : string) (p : ascii -> bool) :
  (forall c, in_kept_class c = true -> p c = true) ->
  extract (str_filter p line) = extract line
  /\ extract (strip line) = extract line
  /\ extract (clean line) = extract line.
Proof.
  intros Hp. repeat split; apply extract_of_clean.
  - now apply clean_filter.
  - apply clean_strip.
  - apply (clean_filter in_kept_class). auto.
Qed.

Lemma extract_ignores_other_characters_witness :
  (forall c, in_kept_class c = true
             -> negb (Ascii.eqb c replacement_char) = true)
  /\ extract (str_filter (fun c => negb (Ascii.eqb c replacement_char))
                "+012.345 g ST")
     = extract "+012.345 g ST".
Proof.
  assert (H : forall c, in_kept_class c = true
                        -> negb (Ascii.eqb c replacement_char) = true).
  { intros c. destruct c as [[] [] [] [] [] [] [] []]; simpl; auto. }
  split; [exact H|].
  exact (proj1 (extract_ignores_other_characters "+012.345 g ST"
                  (fun c => negb (Ascii.eqb c replacement_char)) H)).
Defined.

Lemma take_digits_rest (s ds rest : string) :
  take_digits s = (ds, rest) ->
  match rest with
  | EmptyString => True
  | String c _ => is_digit c = false
  end.
Proof.
  revert ds rest; induction s as [|c s IH]; simpl; intros ds rest H.
  - inversion H; subst; exact I.
  - destruct (is_digit c) eqn:Hc.
    + destruct (take_digits s) as [ds' rest'] eqn:Ht.
      inversion H; subst. exact (IH _ _ eq_refl).
    + inversion H; subst. exact Hc.
Qed.

Lemma match_unsigned_greedy (s t : string) :
  match_unsigned s = Some t ->
  exists post, s = t ++ post
               /\ match post with
                  | EmptyString => True
                  | String c _ => is_digit c = false
                  end.
Proof.
  unfold match_unsigned; intros H.
  destruct (take_digits s) as [ip r1] eqn:Hip.
  destruct (take_digits_spec _ _ _ Hip) as [-> _].
  destruct ip as [|i0 ip]; [discriminate|].
  destruct r1 as [|c1 r2]; [discriminate|].
  destruct (Ascii.eqb_spec c1 ".") as [->|Hn].
  2:{ destruct c1 as [[] [] [] [] [] [] [] []]; try discriminate; congruence. }
  destruct (take_digits r2) as [fp r3] eqn:Hfp.
  pose proof (take_digits_rest _ _ _ Hfp) as Hrest.
  destruct (take_digits_spec _ _ _ Hfp) as [-> _].
  destruct fp as [|f0 fp]; [discriminate|].
  inversion H; subst; clear H.
  exists r3; split; [|exact Hrest].
  simpl; rewrite ?append_assoc; simpl; rewrite ?append_assoc; reflexivity.
Qed.

Lemma match_weight_greedy (s t : string) :
  match_weight s = Some t ->
  exists post, s = t ++ post
               /\ match post with
                  | EmptyString => True
                  | String c _ => is_digit c = false
                  end.
Proof.
  unfold match_weight; intros H.
  destruct s as [|c body]; [now apply match_unsigned_greedy|].
  destruct (is_sign c) eqn:Hc; [|now apply match_unsigned_greedy].
  destruct (match_unsigned body) as [t'|] eqn:Hb;
    [|now apply match_unsigned_greedy].
  inversion H; subst; clear H.
  destruct (match_unsigned_greedy _ _ Hb) as (post & -> & Hp).
  exists post; split; [reflexivity | exact Hp].
Qed.

(** X3.  The text the search returns is the leftmost decimal of the
    string, taken with all its digits: it has the form sign, digits, point,
    digits; no text of that form starts at an earlier position; and the
    character after it, if any, is not a digit. *)
Theorem search_weight_leftmost_greedy (s t : string) :
  search_weight s = Some t ->
  exists pre post,
    s = pre ++ t ++ post
    /\ decimal_form t
    /\ match post with
       | EmptyString => True
       | String c _ => is_digit c = false
       end
    /\ forall p1 p2 t' post',
         pre = p1 ++ p2 -> p2 <> "" -> decimal_form t' ->
         p2 ++ t ++ post <> t' ++ post'.
Proof.
  revert t; induction s as [|c s IH]; intros t H;
    rewrite search_weight_unfold in H.
  - discriminate H.
  - destruct (match_weight (String c s)) as [m|] eqn:Hm.
    + inversion H; subst; clear H.
      destruct (match_weight_greedy _ _ Hm) as (post & E & Hp).
      apply match_weight_sound in Hm. destruct Hm as [Hd _].
      exists "", post; repeat split; auto.
      intros p1 p2 t' post' E'. destruct p1; destruct p2; try discriminate.
      congruence.
    + destruct (IH _ H) as (pre & post & E & Hd & Hp & Hleft).
      exists (String c pre), post; repeat split; auto.
      * simpl. now rewrite <- E.
      * intros p1 p2 t' post' E' Hne Hd' Heq.
        destruct p1 as [|a p1].
        -- simpl in E'. subst p2.
           destruct (match_weight_complete t' post' Hd') as [u Hu].
           rewrite <- Heq in Hu. simpl in Hu. rewrite <- E in Hu. congruence.
        -- simpl in E'. inversion E'; subst.
           exact (Hleft p1 p2 t' post' eq_refl Hne Hd' Heq).
Qed.

Lemma search_weight_leftmost_greedy_witness :
  search_weight "k.5g+3.25g7.5" = Some "+3.25"
  /\ exists pre post,
       "k.5g+3.25g7.5" = pre ++ "+3.25" ++ post
       /\ decimal_form "+3.25"
       /\ match post with
          | EmptyString => True
          | String c _ => is_digit c = false
          end
       /\ forall p1 p2 t' post',
            pre = p1 ++ p2 -> p2 <> "" -> decimal_form t' ->
            p2 ++ "+3.25" ++ post <> t' ++ post'.
Proof.
  split; [reflexivity|].
  exact (search_weight_leftmost_greedy "k.5g+3.25g7.5" "+3.25" eq_refl).
Defined.

Lemma kept_lower (c : ascii) : in_kept_class c = true -> lower_char c = c.
Proof. destruct c as [[] [] [] [] [] [] [] []]; simpl; auto; discriminate. Qed.

Lemma lower_clean (s : string) : lower (clean s) = clean s.
Proof.
  unfold clean. induction s as [|c s IH]; [reflexivity|].
  cbn [str_filter]. destruct (in_kept_class c) eqn:Hc; [|exact IH].
  cbn [lower]. now rewrite (kept_lower _ Hc), IH.
Qed.

Lemma str_in_g_cons (c : ascii) (s : string) :
  str_in "g" (String c s) = Ascii.eqb "g" c || str_in "g" s.
Proof. cbn [str_in]. now rewrite prefix_cons, prefix_nil, andb_true_r. Qed.

Lemma str_in_g_clean (s : string) : str_in "g" (clean s) = str_in "g" s.
Proof.
  unfold clean. induction s as [|c s IH]; [reflexivity|].
  rewrite str_in_g_cons. cbn [str_filter].
  destruct (in_kept_class c) eqn:Hc.
  - now rewrite str_in_g_cons, IH.
  - rewrite IH. destruct (Ascii.eqb_spec "g" c) as [<-|]; [discriminate|].
    reflexivity.
Qed.

(** X4.  The unit of a reading is [g] exactly when the line as received
    holds a lower-case [g] anywhere, and [?] otherwise; an upper-case [G]
    does not count, whatever the [lower()] of the unit test suggests. *)
Theorem unit_is_lower_case_g (line : string) :
  unit_of (clean line) = (if str_in "g" line then "g" else "?")
  /\ match extract line with
     | Some (_, u) => u = (if str_in "g" line then "g" else "?")
     | None => True
     end
  /\ unit_of (clean (line ++ " G")) = unit_of (clean line).
Proof.
  assert (H : forall l, unit_of (clean l) = if str_in "g" l then "g" else "?").
  { intros l. unfold unit_of. rewrite lower_clean, str_in_g_clean.
    destruct (str_in "g" l) eqn:Hg; [reflexivity|].
    destruct (str_in "kg" (clean l)) eqn:Hk; [|reflexivity].
    apply str_in_kg_g in Hk. rewrite str_in_g_clean in Hk. congruence. }
  split; [apply H|]. split.
  - unfold extract. destruct (clean line =? "")%string; [exact I|].
    destruct (search_weight (clean line)); [|exact I].
    destruct (float_of_decimal s); [apply H | exact I].
  - rewrite !H. induction line as [|c line IH]; [reflexivity|].
    cbn [String.append]. rewrite !str_in_g_cons.
    destruct (Ascii.eqb "g" c); [reflexivity|]. simpl orb.
    destruct (str_in "g" (line ++ " G")), (str_in "g" line);
      try reflexivity; discriminate.
Qed.

(** * Further properties of the ledger and of sessions *)

(** What of a row is measured, as opposed to what the operator may edit. *)
Definition measured (r : row) : float64 * string * string * string :=
  (row_weight r, row_unit r, row_device r, row_iid r).

(** The row [process_data] makes of a reading in a state. *)
Definition row_for (combo : string) (weight : float64) (unit : string)
    (st : app) : row :=
  {| row_sample_name := "Sample_" ++ str_of_int (sample_counter st);
     row_weight := weight; row_unit := unit;
     row_device := str_or (str_or combo (device_name st)) "Unknown";
     row_comments := "";
     row_iid := fst (tree_insert [] (tree st)) |}.

Lemma data_step_line (combo line : string) (st : app) :
  data (step (Line combo line) st)
  = (data st
     ++ match extract (strip line) with
        | Some (w, u) => [row_for combo w u st]
        | None => []
        end)%list.
Proof.
  unfold step, handle_line, process_data.
  destruct (extract (strip line)) as [[w u]|]; simpl.
  - reflexivity.
  - now rewrite app_nil_r.
Qed.

Lemma device_name_step_line (combo line : string) (st : app) :
  device_name (step (Line combo line) st)
  = match extract (strip line) with
    | Some _ => str_or (str_or combo (device_name st)) "Unknown"
    | None => device_name st
    end.
Proof.
  unfold step, handle_line, process_data.
  destruct (extract (strip line)) as [[w u]|]; reflexivity.
Qed.

Lemma measured_edit_rows (rowid : string) (col_idx : Z) (v : string)
    (rows : list row) :
  map measured (edit_rows rowid col_idx v rows) = map measured rows.
Proof.
  induction rows as [|x rows IH]; simpl; [reflexivity|].
  destruct (row_iid x =? rowid)%string; simpl.
  - destruct (col_idx =? 0); reflexivity.
  - now rewrite IH.
Qed.

(** X5.  An edit through the table never touches what was measured: the
    weights, units, devices and keys of all rows, their number and order,
    the counter and the device name are as before; outside of a cell, or
    in a column other than 0 and 4, the handler changes nothing at all. *)
Theorem edit_keeps_measurements (region rowid : string) (col_idx : Z)
    (v : string) (st st' : app) :
  on_treeview_double_click region rowid col_idx v st = Some st' ->
  map measured (data st') = map measured (data st)
  /\ List.length (data st') = List.length (data st)
  /\ sample_counter st' = sample_counter st
  /\ device_name st' = device_name st
  /\ (region <> "cell" \/ (col_idx <> 0 /\ col_idx <> 4) -> st' = st).
Proof.
  unfold on_treeview_double_click. intros H.
  destruct (region =? "cell")%string eqn:Hr; cbn [negb] in H.
  2:{ inversion H; subst. repeat split; auto. }
  apply String.eqb_eq in Hr.
  destruct (existsb (Z.eqb col_idx) [0; 4]) eqn:Hc; cbn [negb] in H.
  2:{ inversion H; subst. repeat split; auto. }
  unfold save_edit in H.
  destruct (tree_set rowid col_idx v (tree st)); [|discriminate].
  inversion H; subst; clear H. cbn [data save_temp_data sample_counter device_name].
  repeat split.
  - apply measured_edit_rows.
  - apply edit_rows_length.
  - intros [Hn|[H0 H4]]; [contradiction|].
    simpl in Hc. apply Z.eqb_neq in H0, H4. rewrite H0, H4 in Hc. discriminate.
Qed.

Lemma edit_keeps_measurements_witness :
  (exists st', on_treeview_double_click "cell" "I002" 0 "blank" two_readings
               = Some st'
               /\ map measured (data st') = map measured (data two_readings)
               /\ map row_sample_name (data st') = ["Sample_1"; "blank"])
  /\ (exists st', on_treeview_double_click "cell" "I002" 1 "9.999" two_readings
                  = Some st'
                  /\ st' = two_readings).
Proof.
  split.
  - eexists; split; [reflexivity|]. split; [|reflexivity].
    exact (proj1 (edit_keeps_measurements "cell" "I002" 0 "blank" two_readings
                    _ eq_refl)).
  - eexists; split; [reflexivity|].
    destruct (edit_keeps_measurements "cell" "I002" 1 "9.999" two_readings
                _ eq_refl) as (_ & _ & _ & _ & H).
    apply H. right. split; discriminate.
Defined.

Lemma measured_step (ev : event) (st : app) :
  is_confirmed_reset ev = false ->
  exists more,
    map measured (data (step ev st)) = (map measured (data st) ++ more)%list.
Proof.
  intros Hev. destruct ev as [combo line|rowid col_idx v|[|]].
  - rewrite data_step_line, map_app. eauto.
  - exists []. rewrite app_nil_r. unfold step, save_edit.
    destruct (tree_set rowid col_idx v (tree st)); [|reflexivity].
    apply measured_edit_rows.
  - discriminate.
  - exists []. now rewrite app_nil_r.
Qed.

(** X6.  Short of a confirmed reset nothing that was measured is lost or
    altered: whatever lines arrive and whatever the operator edits or
    declines, the weights, units, devices and keys of the rows that were in
    the ledger are still there, in the same order, at its head. *)
Theorem measurements_are_kept (evs : list event) (st : app) :
  forallb (fun ev => negb (is_confirmed_reset ev)) evs = true ->
  exists more,
    map measured (data (run evs st)) = (map measured (data st) ++ more)%list.
Proof.
  revert st; induction evs as [|ev evs IH]; intros st H.
  - exists []. simpl. now rewrite app_nil_r.
  - cbn [forallb] in H. apply andb_true_iff in H as [Hev Hevs].
    apply negb_true_iff in Hev.
    destruct (measured_step ev st Hev) as [m1 H1].
    destruct (IH (step ev st) Hevs) as [m2 H2].
    exists (m1 ++ m2)%list. cbn [run fold_left]. fold (run evs (step ev st)).
    now rewrite H2, H1, app_assoc.
Qed.

Lemma measurements_are_kept_witness :
  forallb (fun ev => negb (is_confirmed_reset ev)) short_session = true
  /\ exists more,
       map measured (data (run short_session one_reading))
       = (map measured (data one_reading) ++ more)%list.
Proof.
  split; [reflexivity|].
  exact (measurements_are_kept short_session one_reading eq_refl).
Defined.

Lemma str_or_nonempty (a : string) : str_or a "Unknown" <> "".
Proof.
  unfold str_or. destruct (a =? "")%string eqn:E; [discriminate|].
  now apply String.eqb_neq in E.
Qed.

Lemma str_or_keeps (a b : string) : a <> "" -> str_or a b = a.
Proof. intros H. unfold str_or. apply String.eqb_neq in H. now rewrite H. Qed.

(** X7.  With the preset box empty the device label sticks: every row
    appended over any run of lines carries the device name the run started
    with, or [Unknown] if there was none, and once a reading has been
    appended that label is the device name. *)
Theorem device_label_carries_forward (lines : list string) (st : app) :
  let label := str_or (device_name st) "Unknown" in
  let st' := run (map (Line "") lines) st in
  exists rows,
    data st' = (data st ++ rows)%list
    /\ Forall (fun r => row_device r = label) rows
    /\ device_name st'
       = match rows with
         | [] => device_name st
         | _ :: _ => label
         end.
Proof.
  revert st; induction lines as [|l lines IH]; intros st label st'.
  - exists []. subst st'. simpl. now rewrite app_nil_r.
  - subst st'. cbn [map run fold_left].
    fold (run (map (Line "") lines) (step (Line "" l) st)).
    destruct (IH (step (Line "" l) st)) as (rows & Hd & Hall & Hn).
    rewrite device_name_step_line in Hall, Hn.
    rewrite data_step_line in Hd.
    destruct (extract (strip l)) as [[w u]|].
    + change (str_or "" (device_name st)) with (device_name st) in *.
      fold label in Hall, Hn.
      rewrite (str_or_keeps label "Unknown" (str_or_nonempty _)) in Hall, Hn.
      exists (row_for "" w u st :: rows). split; [|split].
      * rewrite Hd, <- app_assoc. reflexivity.
      * constructor; [reflexivity | exact Hall].
      * destruct rows; exact Hn.
    + rewrite app_nil_r in Hd. exists rows. auto.
Qed.

Lemma str_of_int_inj (a b : Z) : str_of_int a = str_of_int b -> a = b.
Proof.
  unfold str_of_int. intros H.
  assert (Hi : forall z, NilZero.int_of_string (NilZero.string_of_int (Z.to_int z))
                         = Some (Z.to_int z)).
  { intros z. apply NilZero.isi; destruct z; simpl; try discriminate;
      intros E; inversion E as [E'];
      now apply DecimalPos.Unsigned.to_uint_nonnil in E'. }
  pose proof (Hi a) as Ha. rewrite H, Hi in Ha. inversion Ha as [E].
  rewrite <- (DecimalZ.of_to a), <- (DecimalZ.of_to b). now rewrite E.
Qed.

Lemma count_from_bounds (c : Z) (n : nat) (x : Z) :
  In x (count_from c n) -> c <= x < c + Z.of_nat n.
Proof.
  revert c; induction n as [|n IH]; intros c; simpl; [tauto|].
  intros [<-|H]; [lia|]. apply IH in H. lia.
Qed.

Lemma count_from_NoDup (c : Z) (n : nat) : NoDup (count_from c n).
Proof.
  revert c; induction n as [|n IH]; intros c; simpl; constructor.
  - intros H. apply count_from_bounds in H. lia.
  - apply IH.
Qed.

Lemma NoDup_map_injective {A B} (f : A -> B) (l : list A) :
  (forall a b, f a = f b -> a = b) -> NoDup l -> NoDup (map f l).
Proof.
  intros Hf Hl. induction Hl as [|x l Hx Hl IH]; simpl; constructor; auto.
  intros H. apply in_map_iff in H as (y & E & Hy).
  apply Hf in E. now subst.
Qed.

(** The default name of sample number [i]. *)
Definition default_name (i : Z) : string := "Sample_" ++ str_of_int i.

Lemma default_name_inj (a b : Z) : default_name a = default_name b -> a = b.
Proof.
  unfold default_name. simpl. intros H. inversion H. now apply str_of_int_inj.
Qed.

Definition is_line (ev : event) : bool :=
  match ev with
  | Line _ _ => true
  | _ => false
  end.

Lemma names_of_lines (evs : list event) (st : app) :
  forallb is_line evs = true ->
  exists rows,
    data (run evs st) = (data st ++ rows)%list
    /\ map row_sample_name rows
       = map default_name (count_from (sample_counter st) (List.length rows))
    /\ sample_counter (run evs st)
       = sample_counter st + Z.of_nat (List.length rows).
Proof.
  revert st; induction evs as [|ev evs IH]; intros st H.
  - exists []. simpl. rewrite app_nil_r. repeat split; lia.
  - cbn [forallb] in H. apply andb_true_iff in H as [Hev Hevs].
    destruct ev as [combo line| |]; try discriminate.
    cbn [run fold_left]. fold (run evs (step (Line combo line) st)).
    destruct (IH (step (Line combo line) st) Hevs) as (rows & Hd & Hn & Hc).
    rewrite sample_counter_step_line in Hn, Hc.
    rewrite data_step_line in Hd.
    destruct (extract (strip line)) as [[w u]|].
    + exists (row_for combo w u st :: rows). split; [|split].
      * rewrite Hd, <- app_assoc. reflexivity.
      * cbn [map List.length count_from]. now rewrite Hn.
      * rewrite Hc. cbn [List.length]. lia.
    + rewrite app_nil_r in Hd. exists rows. auto.
Qed.

(** X8.  Over any run of lines the rows appended are named [Sample_c],
    [Sample_(c+1)], ... from the counter [c], in order; these names are
    pairwise distinct, and the counter ends after the last. *)
Theorem default_names_distinct (evs : list event) (st : app) :
  forallb is_line evs = true ->
  exists rows,
    data (run evs st) = (data st ++ rows)%list
    /\ map row_sample_name rows
       = map default_name (count_from (sample_counter st) (List.length rows))
    /\ NoDup (map row_sample_name rows)
    /\ sample_counter (run evs st)
       = sample_counter st + Z.of_nat (List.length rows).
Proof.
  intros H. destruct (names_of_lines evs st H) as (rows & Hd & Hn & Hc).
  exists rows. repeat split; auto.
  rewrite Hn. apply NoDup_map_injective.
  - apply default_name_inj.
  - apply count_from_NoDup.
Qed.

Lemma default_names_distinct_witness :
  forallb is_line [Line "" "+1.5 g"; Line "" "ERROR"; Line "" "2.5 g"] = true
  /\ exists rows,
       data (run [Line "" "+1.5 g"; Line "" "ERROR"; Line "" "2.5 g"]
               (init NoFile))
       = (data (init NoFile) ++ rows)%list
       /\ map row_sample_name rows
          = map default_name
              (count_from (sample_counter (init NoFile)) (List.length rows))
       /\ NoDup (map row_sample_name rows)
       /\ sample_counter (run [Line "" "+1.5 g"; Line "" "ERROR";
                               Line "" "2.5 g"] (init NoFile))
          = sample_counter (init NoFile) + Z.of_nat (List.length rows).
Proof.
  split; [reflexivity|].
  exact (default_names_distinct
           [Line "" "+1.5 g"; Line "" "ERROR"; Line "" "2.5 g"]
           (init NoFile) eq_refl).
Defined.

(** * Further properties of the checkpoint *)

(** A restart that restores finds the ledger, the counter and the device
    name of [st]. *)
Definition recovers (st : app) : Prop :=
  let restarted := load_temp_data true (init (TEMP_FILE st)) in
  data restarted = data st
  /\ sample_counter restarted = sample_counter st
  /\ device_name restarted = device_name st.

Lemma recovers_saved (st : app) : recovers (save_temp_data st).
Proof. unfold recovers. simpl. auto. Qed.

Lemma recovers_start (file : checkpoint_file) (answer : bool) :
  recovers (load_temp_data answer (init file)).
Proof.
  unfold recovers. destruct file as [| |temp]; simpl; auto.
  destruct answer; simpl; auto.
Qed.

Lemma recovers_step (ev : event) (st : app) :
  recovers st -> recovers (step ev st).
Proof.
  intros H. destruct ev as [combo line|rowid col_idx v|[|]].
  - apply recovers_saved.
  - unfold step, save_edit.
    destruct (tree_set rowid col_idx v (tree st)); [|exact H].
    apply recovers_saved.
  - unfold recovers. simpl. auto.
  - exact H.
Qed.

(** X9.  Whatever checkpoint a process finds at start and whatever the
    operator answers, after any lines, edits and resets a crash loses
    nothing: a new process that restores from the file as it then is has
    the same rows, the same counter and the same device name (after a
    confirmed reset there is no file, and the new process starts as empty
    as the old one was). *)
Theorem crash_recovery (file : checkpoint_file) (answer : bool)
    (evs : list event) :
  let st := run evs (load_temp_data answer (init file)) in
  let restarted := load_temp_data true (init (TEMP_FILE st)) in
  data restarted = data st
  /\ sample_counter restarted = sample_counter st
  /\ device_name restarted = device_name st.
Proof.
  cbv zeta. change (recovers (run evs (load_temp_data answer (init file)))).
  generalize (recovers_start file answer).
  generalize (load_temp_data answer (init file)) as st.
  induction evs as [|ev evs IH]; intros st H; [exact H|].
  cbn [run fold_left]. apply IH, recovers_step, H.
Qed.

(** * Further properties of the read loops *)

(** X10.  A reading is recorded only once its separator has arrived: while
    the bytes received hold no carriage return followed by a line feed,
    neither loop hands any line over, the state is untouched and the whole
    decoded text waits in the buffer. *)
Theorem unterminated_text_is_buffered (St : Type)
    (on_line : string -> St -> St) (chunks : list (list Byte.byte)) (st : St) :
  Forall (fun raw => raw <> []) chunks ->
  split_once CRLF (decode (List.concat chunks)) = None ->
  read_tcp on_line chunks "" st = (decode (List.concat chunks), st)
  /\ read_serial on_line chunks "" st = (decode (List.concat chunks), st).
Proof.
  intros Hne Hnone. split.
  - rewrite read_tcp_drain by auto. now apply drain_without_crlf.
  - rewrite read_serial_drain by auto. now apply drain_without_crlf.
Qed.

Lemma unterminated_text_is_buffered_witness :
  Forall (fun raw => raw <> [])
    [list_byte_of_string "+5.0"; list_byte_of_string "00 g"]
  /\ read_tcp (handle_line "")
       [list_byte_of_string "+5.0"; list_byte_of_string "00 g"] ""
       (init NoFile)
     = ("+5.000 g", init NoFile).
Proof.
  assert (Hne : Forall (fun raw : list Byte.byte => raw <> [])
                  [list_byte_of_string "+5.0"; list_byte_of_string "00 g"])
    by (repeat constructor; discriminate).
  split; [exact Hne|].
  exact (proj1 (unterminated_text_is_buffered app (handle_line "")
                  [list_byte_of_string "+5.0"; list_byte_of_string "00 g"]
                  (init NoFile) Hne eq_refl)).
Defined.

(** X11.  An empty result of [recv] ends the TCP loop: nothing received
    after it is processed.  An empty serial read is only a turn without
    data: the loop goes on as if it had not happened. *)
Theorem empty_read_ends_tcp_not_serial (St : Type)
    (on_line : string -> St -> St) (before after : list (list Byte.byte))
    (buffer : string) (st : St) :
  read_tcp on_line (before ++ [] :: after) buffer st
  = read_tcp on_line before buffer st
  /\ read_serial on_line (before ++ [] :: after) buffer st
     = read_serial on_line (before ++ after) buffer st.
Proof.
  revert buffer st; induction before as [|raw before IH]; intros buffer st.
  - split; reflexivity.
  - destruct raw as [|b raw]; cbn [List.app read_tcp read_serial].
    + split; [reflexivity | apply IH].
    + destruct (feed on_line (b :: raw) buffer st) as [buffer' st'].
      apply IH.
Qed.

(** * The table and the ledger *)

(** The item id Tk gives the [n]th item of a tree. *)
Definition iid_of_serial (n : Z) : string := "I" ++ zero_pad 3 (hex_upper n).

Definition hex_digit_value (c : ascii) : Z :=
  if code c <? 58 then code c - 48 else code c - 55.

Fixpoint hex_value (acc : Z) (s : string) : Z :=
  match s with
  | EmptyString => acc
  | String c s' => hex_value (16 * acc + hex_digit_value c) s'
  end.

Lemma hex_digit_value_digit (d : Z) :
  0 <= d < 16 -> hex_digit_value (hex_digit d) = d.
Proof.
  intros H.
  assert (E : d = 0 \/ d = 1 \/ d = 2 \/ d = 3 \/ d = 4 \/ d = 5 \/ d = 6
              \/ d = 7 \/ d = 8 \/ d = 9 \/ d = 10 \/ d = 11 \/ d = 12
              \/ d = 13 \/ d = 14 \/ d = 15) by lia.
  repeat (destruct E as [->|E]; [reflexivity|]). subst; reflexivity.
Qed.

Lemma hex_value_app (a : Z) (s1 s2 : string) :
  hex_value a (s1 ++ s2) = hex_value (hex_value a s1) s2.
Proof. revert a; induction s1 as [|c s1 IH]; intros a; simpl; auto. Qed.

(** The digits [hex_upper_fuel] puts before its accumulator are those of
    [n]: read back from any start they give [n] more. *)
Lemma hex_upper_fuel_digits (fuel : nat) :
  forall (n : Z) (acc : string),
    0 <= n < 2 ^ Z.of_nat fuel ->
    exists ds,
      hex_upper_fuel fuel n acc = ds ++ acc
      /\ forall a, hex_value a ds = a * 16 ^ Z.of_nat (String.length ds) + n.
Proof.
  induction fuel as [|fuel IH]; intros n acc Hn.
  - exists "". simpl in *. split; [reflexivity|]. intros a. lia.
  - cbn [hex_upper_fuel].
    assert (Hmod : 0 <= n mod 16 < 16) by (apply Z.mod_pos_bound; lia).
    destruct (n / 16 =? 0) eqn:Hq.
    + apply Z.eqb_eq in Hq. exists (String (hex_digit (n mod 16)) "").
      split; [reflexivity|]. intros a. cbn [hex_value String.length].
      rewrite hex_digit_value_digit by exact Hmod.
      pose proof (Z.div_mod n 16 ltac:(lia)). change (16 ^ Z.of_nat 1) with 16. lia.
    + assert (Hdiv : 0 <= n / 16 < 2 ^ Z.of_nat fuel).
      { split; [apply Z.div_pos; lia|].
        apply Z.div_lt_upper_bound; [lia|].
        rewrite Nat2Z.inj_succ, Z.pow_succ_r in Hn by lia. lia. }
      destruct (IH (n / 16) (String (hex_digit (n mod 16)) acc) Hdiv)
        as (ds & E & Hv).
      exists (ds ++ String (hex_digit (n mod 16)) "").
      split; [rewrite E, append_assoc; reflexivity|].
      intros a. rewrite hex_value_app, Hv. cbn [hex_value].
      rewrite hex_digit_value_digit by exact Hmod.
      rewrite length_append. cbn [String.length].
      replace (Z.of_nat (String.length ds + 1))
        with (Z.succ (Z.of_nat (String.length ds))) by lia.
      rewrite Z.pow_succ_r by lia.
      pose proof (Z.div_mod n 16 ltac:(lia)). lia.
Qed.

Lemma hex_value_hex_upper (n : Z) : 0 <= n -> hex_value 0 (hex_upper n) = n.
Proof.
  intros Hn. unfold hex_upper.
  destruct (hex_upper_fuel_digits (S (Z.to_nat (Z.log2 n))) n "") as (ds & E & Hv).
  - split; [exact Hn|].
    rewrite Nat2Z.inj_succ, Z2Nat.id by apply Z.log2_nonneg.
    destruct (Z.eq_dec n 0) as [->|Hne]; [reflexivity|].
    apply Z.log2_spec. lia.
  - rewrite E, append_empty_r, Hv. lia.
Qed.

Lemma hex_value_zero_pad (width : nat) (s : string) :
  hex_value 0 (zero_pad width s) = hex_value 0 s.
Proof.
  unfold zero_pad. generalize (width - String.length s)%nat as k.
  induction k as [|k IH]; [reflexivity | exact IH].
Qed.

(** The number an item id was made from. *)
Definition serial_of_iid (item : string) : Z :=
  match item with
  | EmptyString => 0
  | String _ digits => hex_value 0 digits
  end.

Lemma serial_of_iid_of_serial (n : Z) :
  0 <= n -> serial_of_iid (iid_of_serial n) = n.
Proof.
  intros Hn. unfold iid_of_serial. cbn [String.append serial_of_iid].
  now rewrite hex_value_zero_pad, hex_value_hex_upper.
Qed.

Lemma iid_of_serial_inj (n m : Z) :
  0 <= n -> 0 <= m -> iid_of_serial n = iid_of_serial m -> n = m.
Proof.
  intros Hn Hm E.
  rewrite <- (serial_of_iid_of_serial n Hn), <- (serial_of_iid_of_serial m Hm).
  now rewrite E.
Qed.

(** What the table shows of a row: its key and the texts of its columns. *)
Definition shown (r : row) : string * list string := (row_iid r, row_values r).

(** The table and the ledger are in step: the items of the table are the
    rows of the ledger, in order, each under its key; the keys were given
    out by this table and no two rows share one. *)
Definition in_step (st : app) : Prop :=
  tree_items (tree st) = map shown (data st)
  /\ 0 <= tree_serial (tree st)
  /\ Forall (fun item => exists n, 1 <= n <= tree_serial (tree st)
                                   /\ item = iid_of_serial n)
       (map row_iid (data st))
  /\ NoDup (map row_iid (data st)).

(** The edits the handler lets through: columns 0 and 4. *)
Definition editable_event (ev : event) : bool :=
  match ev with
  | Edit _ col_idx _ => (col_idx =? 0) || (col_idx =? 4)
  | _ => true
  end.

Lemma iid_edit_rows (rowid : string) (col_idx : Z) (v : string)
    (rows : list row) :
  map row_iid (edit_rows rowid col_idx v rows) = map row_iid rows.
Proof.
  induction rows as [|x rows IH]; simpl; [reflexivity|].
  destruct (row_iid x =? rowid)%string; simpl.
  - destruct (col_idx =? 0); reflexivity.
  - now rewrite IH.
Qed.

Lemma shown_other_rows (rowid : string) (col_idx : Z) (v : string)
    (rows : list row) :
  ~ In rowid (map row_iid rows) ->
  map (fun it => if (fst it =? rowid)%string
                 then (fst it, replace_nth (Z.to_nat col_idx) v (snd it))
                 else it) (map shown rows)
  = map shown rows.
Proof.
  induction rows as [|x rows IH]; simpl; intros H; [reflexivity|].
  assert (Hx : (row_iid x =? rowid)%string = false)
    by (apply String.eqb_neq; intros E; apply H; now left).
  rewrite Hx, IH; [reflexivity|]. intros Hin; apply H; now right.
Qed.

Lemma shown_edit_rows (rowid : string) (col_idx : Z) (v : string)
    (rows : list row) :
  col_idx = 0 \/ col_idx = 4 ->
  NoDup (map row_iid rows) ->
  map (fun it => if (fst it =? rowid)%string
                 then (fst it, replace_nth (Z.to_nat col_idx) v (snd it))
                 else it) (map shown rows)
  = map shown (edit_rows rowid col_idx v rows).
Proof.
  intros Hcol. induction rows as [|x rows IH]; simpl; intros Hnd;
    [reflexivity|].
  inversion Hnd as [|? ? Hx Hrest]; subst.
  destruct (row_iid x =? rowid)%string eqn:E.
  - apply String.eqb_eq in E. subst rowid.
    rewrite (shown_other_rows (row_iid x) col_idx v rows) by exact Hx.
    destruct Hcol as [-> | ->]; reflexivity.
  - simpl. now rewrite IH.
Qed.

Lemma in_step_append (combo : string) (w : float64) (u : string) (st : app) :
  in_step st -> in_step (append_reading combo w u st).
Proof.
  intros (Hitems & Hser & Hall & Hnd). unfold in_step, append_reading.
  cbn [tree_insert tree data save_temp_data tree_items tree_serial].
  fold (iid_of_serial (tree_serial (tree st) + 1)).
  rewrite !map_app. cbn [map shown row_iid row_values row_sample_name
    row_weight row_unit row_device row_comments].
  split; [now rewrite Hitems|]. split; [lia|]. split.
  - apply Forall_app; split.
    + eapply Forall_impl; [|exact Hall].
      intros item (n & Hn & ->). exists n; split; [lia | reflexivity].
    + constructor; [|constructor].
      exists (tree_serial (tree st) + 1); split; [lia | reflexivity].
  - apply NoDup_app; [exact Hnd | repeat constructor; tauto |].
    intros item Hin [<-|[]].
    rewrite Forall_forall in Hall. destruct (Hall _ Hin) as (n & Hn & E).
    apply iid_of_serial_inj in E; lia.
Qed.

Lemma in_step_save_edit (rowid : string) (col_idx : Z) (v : string)
    (st st' : app) :
  col_idx = 0 \/ col_idx = 4 ->
  in_step st -> save_edit rowid col_idx v st = Some st' -> in_step st'.
Proof.
  intros Hcol (Hitems & Hser & Hall & Hnd). unfold save_edit, tree_set.
  destruct (tree_exists rowid (tree st)); [|discriminate].
  intros E; inversion E; subst; clear E. unfold in_step.
  cbn [tree data save_temp_data tree_items tree_serial].
  rewrite iid_edit_rows, Hitems. repeat split; auto.
  now apply shown_edit_rows.
Qed.

Lemma in_step_step (ev : event) (st : app) :
  editable_event ev = true -> in_step st -> in_step (step ev st).
Proof.
  intros Hev H. destruct ev as [combo line|rowid col_idx v|[|]].
  - unfold step, handle_line, process_data.
    destruct (extract (strip line)) as [[w u]|].
    + exact (in_step_append combo w u st H).
    + exact H.
  - cbn [step]. destruct (save_edit rowid col_idx v st) as [st'|] eqn:E;
      [|exact H].
    apply (in_step_save_edit rowid col_idx v st st'); auto.
    cbn [editable_event] in Hev. apply orb_true_iff in Hev.
    destruct Hev as [Hc|Hc]; apply Z.eqb_eq in Hc; auto.
  - unfold in_step. simpl. destruct H as (_ & Hser & _).
    repeat split; auto; constructor.
  - exact H.
Qed.

(** X12.  From a state where the table and the ledger are in step, as at
    start, they stay in step over any lines, resets and edits of columns 0
    and 4: the table shows exactly the rows of the ledger, in order, each
    under its key and with its weight in three decimals, and no two rows
    share a key, so that an edit addresses one row. *)
Theorem table_shows_ledger (evs : list event) (st : app) :
  in_step st ->
  forallb editable_event evs = true ->
  tree_items (tree (run evs st)) = map shown (data (run evs st))
  /\ NoDup (map row_iid (data (run evs st)))
  /\ in_step (run evs st).
Proof.
  intros H Hev.
  assert (Hrun : in_step (run evs st)).
  { revert st H; induction evs as [|ev evs IH]; intros st H; [exact H|].
    cbn [forallb] in Hev. apply andb_true_iff in Hev as [H1 H2].
    cbn [run fold_left]. apply (IH H2), in_step_step; assumption. }
  destruct Hrun as (H1 & H2 & H3 & H4). repeat split; assumption.
Qed.

Lemma in_step_init (file : checkpoint_file) : in_step (init file).
Proof. unfold in_step. simpl. repeat split; try constructor; lia. Qed.

Lemma table_shows_ledger_witness :
  in_step (init NoFile)
  /\ forallb editable_event short_session = true
  /\ tree_items (tree (run short_session (init NoFile)))
     = [("I001", ["Sample_1"; "1.500"; "g"; "Unknown"; "dried"]);
        ("I002", ["Sample_2"; "2.500"; "g"; "Unknown"; ""])]
  /\ tree_items (tree (run short_session (init NoFile)))
     = map shown (data (run short_session (init NoFile))).
Proof.
  split; [apply in_step_init|]. split; [reflexivity|]. split; [reflexivity|].
  exact (proj1 (table_shows_ledger short_session (init NoFile)
                  (in_step_init NoFile) eq_refl)).
Defined.

(** ** The table after a restore *)

(** Rows shown under the keys Tk gives from number [k] on. *)
Fixpoint numbered (k : Z) (rows : list row) : list (string * list string) :=
  match rows with
  | [] => []
  | r :: rows' => (iid_of_serial k, row_values r) :: numbered (k + 1) rows'
  end.

Lemma fold_tree_insert (rows : list row) (t : treeview) :
  fold_left (fun t r => snd (tree_insert (row_values r) t)) rows t
  = {| tree_serial := tree_serial t + Z.of_nat (List.length rows);
       tree_items := (tree_items t ++ numbered (tree_serial t + 1) rows)%list |}.
Proof.
  revert t; induction rows as [|r rows IH]; intros t.
  - simpl. rewrite app_nil_r, Z.add_0_r. now destruct t.
  - cbn [fold_left]. rewrite IH. cbn [tree_insert snd tree_serial tree_items
      numbered List.length]. fold (iid_of_serial (tree_serial t + 1)).
    rewrite <- app_assoc. f_equal. lia.
Qed.

Lemma numbered_values (k : Z) (rows : list row) :
  map snd (numbered k rows) = map row_values rows.
Proof.
  revert k; induction rows as [|r rows IH]; intros k; simpl;
    [reflexivity | now rewrite IH].
Qed.

Lemma numbered_keys (k : Z) (rows : list row) :
  map fst (numbered k rows)
  = map iid_of_serial (count_from k (List.length rows)).
Proof.
  revert k; induction rows as [|r rows IH]; intros k; simpl;
    [reflexivity | now rewrite IH].
Qed.

(** X13.  [refresh_table] rebuilds the table from the ledger and leaves the
    ledger alone: the table then shows every row once, in order, with its
    weight in three decimals, under keys that Tk numbers on from where the
    tree stood, whatever [iid] the rows carry; the big label shows the last
    row, or [0.000 g] for an empty ledger.  So does a restore, on the rows
    of the checkpoint. *)
Theorem refresh_table_rebuilds (st : app) (temp : checkpoint) :
  let refreshed := refresh_table st in
  (data refreshed = data st
   /\ map snd (tree_items (tree refreshed)) = map row_values (data st)
   /\ map fst (tree_items (tree refreshed))
      = map iid_of_serial
          (count_from (tree_serial (tree st) + 1) (List.length (data st)))
   /\ tree_serial (tree refreshed)
      = tree_serial (tree st) + Z.of_nat (List.length (data st))
   /\ current_weight refreshed
      = match rev (data st) with
        | [] => "0.000 g"
        | last :: _ => format_3f (row_weight last) ++ " " ++ row_unit last
        end)
  /\ (TEMP_FILE st = Document temp ->
      let restored := load_temp_data true st in
      data restored = get (cp_data temp) []
      /\ map snd (tree_items (tree restored))
         = map row_values (get (cp_data temp) [])
      /\ map fst (tree_items (tree restored))
         = map iid_of_serial
             (count_from (tree_serial (tree st) + 1)
                (List.length (get (cp_data temp) [])))).
Proof.
  assert (H : forall s,
             tree (refresh_table s)
             = {| tree_serial := tree_serial (tree s)
                                 + Z.of_nat (List.length (data s));
                  tree_items := numbered (tree_serial (tree s) + 1) (data s) |}).
  { intros s. unfold refresh_table. cbn [tree]. now rewrite fold_tree_insert. }
  split.
  - cbv zeta. rewrite H. cbn [tree_items tree_serial].
    rewrite numbered_values, numbered_keys. repeat split.
  - intros Hf. cbv zeta. unfold load_temp_data. rewrite Hf, H.
    cbn [tree_items tree_serial data tree refresh_table].
    rewrite numbered_values, numbered_keys. repeat split.
Qed.

Lemma refresh_table_rebuilds_witness :
  TEMP_FILE two_readings
  = Document {| cp_data := Some (data two_readings);
                cp_sample_counter := Some 3;
                cp_device_name := Some "Unknown" |}
  /\ tree_items (tree (load_temp_data true two_readings))
     = [("I003", ["Sample_1"; "1.500"; "g"; "Unknown"; ""]);
        ("I004", ["Sample_2"; "2.500"; "g"; "Unknown"; ""])]
  /\ map fst (tree_items (tree (load_temp_data true two_readings)))
     = map iid_of_serial (count_from (tree_serial (tree two_readings) + 1) 2).
Proof.
  split; [reflexivity|]. split; [reflexivity|].
  exact (proj2 (proj2 (proj2 (refresh_table_rebuilds two_readings _) eq_refl))).
Defined.

(** The keys of the ledger are those of a tree that never lost an item:
    [I001], [I002], ... in order. *)
Definition dense (st : app) : Prop :=
  tree_serial (tree st) = Z.of_nat (List.length (data st))
  /\ map row_iid (data st)
     = map iid_of_serial (count_from 1 (List.length (data st))).

Lemma count_from_snoc (c : Z) (n : nat) :
  count_from c (S n) = (count_from c n ++ [c + Z.of_nat n])%list.
Proof.
  revert c; induction n as [|n IH]; intros c.
  - simpl. now rewrite Z.add_0_r.
  - change (count_from c (S (S n))) with (c :: count_from (c + 1) (S n)).
    rewrite IH. cbn [count_from List.app]. do 3 f_equal. lia.
Qed.

Lemma dense_step (ev : event) (st : app) :
  is_confirmed_reset ev = false -> dense st -> dense (step ev st).
Proof.
  intros Hev (Hser & Hids). destruct ev as [combo line|rowid col_idx v|[|]].
  - unfold dense, step, handle_line, process_data.
    destruct (extract (strip line)) as [[w u]|]; [|split; assumption].
    unfold append_reading.
    cbn [tree_insert tree data save_temp_data tree_items tree_serial].
    fold (iid_of_serial (tree_serial (tree st) + 1)).
    rewrite length_app, map_app, Nat.add_1_r, count_from_snoc, map_app.
    cbn [List.length map row_iid]. split; [lia|].
    rewrite Hids, Hser. do 3 f_equal. lia.
  - unfold dense, step, save_edit, tree_set.
    destruct (tree_exists rowid (tree st)); [|split; assumption].
    cbn [tree data save_temp_data tree_serial].
    rewrite iid_edit_rows, edit_rows_length. split; assumption.
  - discriminate.
  - split; assumption.
Qed.

Lemma dense_run (evs : list event) (st : app) :
  forallb (fun ev => negb (is_confirmed_reset ev)) evs = true ->
  dense st -> dense (run evs st).
Proof.
  revert st; induction evs as [|ev evs IH]; intros st H Hd; [exact Hd|].
  cbn [forallb] in H. apply andb_true_iff in H as [H1 H2].
  apply negb_true_iff in H1.
  cbn [run fold_left]. apply (IH _ H2), dense_step; assumption.
Qed.

Lemma recovers_run (evs : list event) (st : app) :
  recovers st -> recovers (run evs st).
Proof.
  revert st; induction evs as [|ev evs IH]; intros st H; [exact H|].
  cbn [run fold_left]. apply IH, recovers_step, H.
Qed.

Lemma numbered_dense (rows : list row) :
  map row_iid rows = map iid_of_serial (count_from 1 (List.length rows)) ->
  numbered 1 rows = map shown rows.
Proof.
  generalize 1 as k. induction rows as [|r rows IH]; intros k H;
    [reflexivity|].
  cbn [map List.length count_from] in H. inversion H as [[Hr Hrest]].
  cbn [numbered map]. unfold shown at 1. rewrite Hr.
  now rewrite (IH _ Hrest).
Qed.

Lemma NoDup_map_injective_on {A B} (f : A -> B) (l : list A) :
  (forall a b, In a l -> In b l -> f a = f b -> a = b) ->
  NoDup l -> NoDup (map f l).
Proof.
  intros Hf Hl. induction Hl as [|x l Hx Hl IH]; simpl; constructor.
  - intros H. apply in_map_iff in H as (y & E & Hy).
    apply Hf in E; [now subst | now right | now left].
  - apply IH. intros a b Ha Hb. apply Hf; now right.
Qed.

(** X14.  After a session without a confirmed reset, started without a
    checkpoint, a crash and a restore leave the table and the ledger in
    step again: the keys the new table gives the restored rows are the
    keys the rows were saved with, so that edits still reach the row they
    are made on. *)
Theorem restore_keeps_keys (evs : list event) :
  forallb (fun ev => negb (is_confirmed_reset ev)) evs = true ->
  let st := run evs (init NoFile) in
  let restored := load_temp_data true (init (TEMP_FILE st)) in
  data restored = data st
  /\ tree_items (tree restored) = map shown (data restored)
  /\ in_step restored.
Proof.
  intros Hev st restored.
  assert (Hd : dense st).
  { apply dense_run; [exact Hev|]. split; reflexivity. }
  assert (Hr : recovers st).
  { apply recovers_run. exact (recovers_start NoFile true). }
  destruct Hr as (Hdata & _). fold restored in Hdata.
  destruct Hd as (_ & Hids). rewrite <- Hdata in Hids.
  assert (Htree : tree restored
                  = {| tree_serial := Z.of_nat (List.length (data restored));
                       tree_items := numbered 1 (data restored) |}).
  { subst restored. unfold load_temp_data. cbn [TEMP_FILE init].
    destruct (TEMP_FILE st) as [| |temp]; try reflexivity.
    unfold refresh_table. cbn [tree data]. now rewrite fold_tree_insert. }
  assert (Hitems : tree_items (tree restored) = map shown (data restored)).
  { rewrite Htree. cbn [tree_items]. now apply numbered_dense. }
  split; [exact Hdata|]. split; [exact Hitems|].
  unfold in_step. rewrite Htree. cbn [tree_serial tree_items].
  split; [now apply numbered_dense|]. split; [lia|]. rewrite Hids. split.
  - apply Forall_forall. intros item Hin.
    apply in_map_iff in Hin as (n & <- & Hn).
    apply count_from_bounds in Hn. exists n. split; [lia | reflexivity].
  - apply NoDup_map_injective_on; [|apply count_from_NoDup].
    intros a b Ha Hb. apply count_from_bounds in Ha, Hb.
    apply iid_of_serial_inj; lia.
Qed.

Lemma restore_keeps_keys_witness :
  forallb (fun ev => negb (is_confirmed_reset ev)) short_session = true
  /\ tree_items
       (tree (load_temp_data true
                (init (TEMP_FILE (run short_session (init NoFile))))))
     = map shown
         (data (load_temp_data true
                  (init (TEMP_FILE (run short_session (init NoFile)))))).
Proof.
  split; [reflexivity|].
  exact (proj1 (proj2 (restore_keeps_keys short_session eq_refl))).
Defined.

(** The hypothesis of X14 is needed: after a confirmed reset the tree goes
    on numbering where it stood, the next row is saved under [I002], and
    the table of the process that restores it shows it under [I001]. *)
Remark restore_after_reset_out_of_step :
  let st := run [Line "" "1.5 g"; Reset true; Line "" "2.5 g"] (init NoFile) in
  let restored := load_temp_data true (init (TEMP_FILE st)) in
  map row_iid (data restored) = ["I002"]
  /\ map fst (tree_items (tree restored)) = ["I001"].
Proof. split; reflexivity. Qed.

(** ** Three decimals on screen *)

Definition is_finite (x : float64) : bool :=
  match x with
  | S754_zero _ | S754_finite _ _ _ => true
  | _ => false
  end.

Definition three_digits (s : string) : bool :=
  (String.length s =? 3)%nat && str_forall is_digit s.

Lemma zero_pad_three_digits (k : Z) :
  0 <= k < 1000 -> three_digits (zero_pad 3 (str_of_int k)) = true.
Proof.
  intros Hk.
  assert (Hall : forallb (fun n => three_digits
                                     (zero_pad 3 (str_of_int (Z.of_nat n))))
                   (seq 0 1000) = true) by (vm_compute; reflexivity).
  rewrite forallb_forall in Hall.
  specialize (Hall (Z.to_nat k)). rewrite Z2Nat.id in Hall by lia.
  apply Hall, in_seq. lia.
Qed.

(** X15.  On screen a finite weight always has exactly three decimals: the
    text of [f"{weight:.3f}"], which is the weight column of the table and
    the head of the big label, ends in a point and three digits. *)
Theorem screen_weight_three_decimals (w : float64) (r : row) :
  is_finite w = true ->
  (exists whole frac,
      format_3f w = whole ++ "." ++ frac
      /\ String.length frac = 3%nat
      /\ str_forall is_digit frac = true)
  /\ nth 1 (row_values r) "" = format_3f (row_weight r)
  /\ nth 1 (snd (shown r)) "" = format_3f (row_weight r).
Proof.
  intros Hw. split; [|split; reflexivity].
  destruct w as [s|s| |s m e]; try discriminate.
  - exists (sign_text s ++ "0"), "000". repeat split.
    destruct s; reflexivity.
  - unfold format_3f. destruct (scaled10 m e 3) as [n d].
    set (k := round_half_even n d).
    exists (sign_text s ++ str_of_int (k / 1000)),
           (zero_pad 3 (str_of_int (k mod 1000))).
    assert (Hk : three_digits (zero_pad 3 (str_of_int (k mod 1000))) = true).
    { apply zero_pad_three_digits, Z.mod_pos_bound. lia. }
    unfold three_digits in Hk. apply andb_true_iff in Hk as [Hl Hd].
    apply Nat.eqb_eq in Hl. repeat split; auto.
    now rewrite append_assoc.
Qed.

Lemma screen_weight_three_decimals_witness :
  is_finite (row_weight first_row) = true
  /\ format_3f (row_weight first_row) = "1.500"
  /\ exists whole frac,
       format_3f (row_weight first_row) = whole ++ "." ++ frac
       /\ String.length frac = 3%nat
       /\ str_forall is_digit frac = true.
Proof.
  split; [reflexivity|]. split; [reflexivity|].
  exact (proj1 (screen_weight_three_decimals (row_weight first_row) first_row
                  eq_refl)).
Defined.

(** * Connecting and disconnecting: [toggle_connection] *)

(** The attributes the method reads and writes.  [serial_port] and
    [tcp_socket] say whether the attribute holds an object; [read_thread]
    names the loop of the thread last started. *)
Record links := {
  serial_port : bool;
  tcp_socket : bool;
  connect_btn : string;
  eth_connect_btn : string;
  status_label : string;
  status_color : string;
  read_thread : option string
}.

(** The links as [__init__] and [create_ui] leave them. *)
Definition init_links : links :=
  {| serial_port := false; tcp_socket := false;
     connect_btn := "Connect"; eth_connect_btn := "Connect";
     status_label := "Not Connected"; status_color := "grey";
     read_thread := None |}.

(** [toggle_connection]; [connection_type] is the choice of the radio
    buttons and [failure] what opening raises, if it is attempted and
    raises: [None] for an open that succeeds, [Some e] for an exception
    whose text is [e]. *)
Definition toggle_connection (connection_type : string)
    (failure : option string) (l : links) : links :=
  if (connection_type =? "Serial")%string then
    if negb (serial_port l) then
      match failure with
      | None =>
          {| serial_port := true; tcp_socket := tcp_socket l;
             connect_btn := "Disconnect";
             eth_connect_btn := eth_connect_btn l;
             status_label := "Connected"; status_color := "green";
             read_thread := Some "read_serial" |}
      | Some e =>
          {| serial_port := serial_port l; tcp_socket := tcp_socket l;
             connect_btn := connect_btn l;
             eth_connect_btn := eth_connect_btn l;
             status_label := "Error: " ++ e; status_color := "red";
             read_thread := read_thread l |}
      end
    else
      {| serial_port := false; tcp_socket := tcp_socket l;
         connect_btn := "Connect"; eth_connect_btn := eth_connect_btn l;
         status_label := "Not Connected"; status_color := "grey";
         read_thread := read_thread l |}
  else
    if negb (tcp_socket l) then
      match failure with
      | None =>
          {| serial_port := serial_port l; tcp_socket := true;
             connect_btn := connect_btn l;
             eth_connect_btn := "Disconnect";
             status_label := "Connected (Ethernet)"; status_color := "green";
             read_thread := Some "read_tcp" |}
      | Some e =>
          {| serial_port := serial_port l; tcp_socket := false;
             connect_btn := connect_btn l;
             eth_connect_btn := eth_connect_btn l;
             status_label := "Error: " ++ e; status_color := "red";
             read_thread := read_thread l |}
      end
    else
      {| serial_port := serial_port l; tcp_socket := false;
         connect_btn := connect_btn l; eth_connect_btn := "Connect";
         status_label := "Not Connected"; status_color := "grey";
         read_thread := read_thread l |}.

Definition toggles (clicks : list (string * option string)) (l : links)
  : links :=
  fold_left (fun s click => toggle_connection (fst click) (snd click) s)
    clicks l.

(** Each button says [Disconnect] exactly while its link is held. *)
Definition buttons_tell (l : links) : Prop :=
  connect_btn l = (if serial_port l then "Disconnect" else "Connect")
  /\ eth_connect_btn l = (if tcp_socket l then "Disconnect" else "Connect").

Lemma buttons_tell_toggle (connection_type : string) (failure : option string)
    (l : links) :
  buttons_tell l -> buttons_tell (toggle_connection connection_type failure l).
Proof.
  intros [Hs Ht]. unfold buttons_tell, toggle_connection.
  destruct (connection_type =? "Serial")%string.
  - destruct (serial_port l) eqn:E; cbn [negb].
    + split; [reflexivity | exact Ht].
    + destruct failure; cbn; rewrite ?E; split; auto.
  - destruct (tcp_socket l) eqn:E; cbn [negb].
    + split; [exact Hs | reflexivity].
    + destruct failure; cbn; rewrite ?E; split; auto.
Qed.

(** X16.  Over any clicks on the connect buttons, whichever link is
    selected and whether or not opening succeeds, each button says
    [Disconnect] exactly while its link is held; a click under one choice
    never touches the link of the other, so that both may be held at
    once; and after a click whose open fails the selected link is free
    and the other as it was. *)
Theorem connect_buttons_tell_links (clicks : list (string * option string))
    (connection_type e : string) (l : links) :
  buttons_tell l ->
  buttons_tell (toggles clicks l)
  /\ (if (connection_type =? "Serial")%string
      then tcp_socket (toggle_connection connection_type None l) = tcp_socket l
      else serial_port (toggle_connection connection_type None l)
           = serial_port l)
  /\ serial_port (toggle_connection connection_type (Some e) l)
     = (if (connection_type =? "Serial")%string then false else serial_port l)
  /\ tcp_socket (toggle_connection connection_type (Some e) l)
     = (if (connection_type =? "Serial")%string then tcp_socket l else false).
Proof.
  intros H. split; [|split; [|split]].
  - revert l H. induction clicks as [|c clicks IH]; intros l H; [exact H|].
    cbn [toggles fold_left]. apply IH, buttons_tell_toggle, H.
  - unfold toggle_connection.
    destruct (connection_type =? "Serial")%string.
    + now destruct (serial_port l).
    + now destruct (tcp_socket l).
  - unfold toggle_connection.
    destruct (connection_type =? "Serial")%string.
    + now destruct (serial_port l) eqn:E; cbn; rewrite ?E.
    + now destruct (tcp_socket l).
  - unfold toggle_connection.
    destruct (connection_type =? "Serial")%string.
    + now destruct (serial_port l).
    + now destruct (tcp_socket l) eqn:E; cbn; rewrite ?E.
Qed.

Lemma connect_buttons_tell_links_witness :
  buttons_tell init_links
  /\ buttons_tell (toggles [("Serial", None); ("Ethernet", None)] init_links)
  /\ serial_port (toggles [("Serial", None); ("Ethernet", None)] init_links)
     = true
  /\ tcp_socket (toggles [("Serial", None); ("Ethernet", None)] init_links)
     = true.
Proof.
  assert (H : buttons_tell init_links) by (split; reflexivity).
  split; [exact H|]. split; [|split; reflexivity].
  exact (proj1 (connect_buttons_tell_links
                  [("Serial", None); ("Ethernet", None)] "Serial" "busy"
                  init_links H)).
Defined.

(** * Sample numbers and the rows that carry them *)

Lemma run_app (a b : list event) (st : app) :
  run (a ++ b) st = run b (run a st).
Proof. unfold run. apply fold_left_app. Qed.

Lemma assigned_ids_app (a b : list event) (st : app) :
  assigned_ids (a ++ b) st
  = (assigned_ids a st ++ assigned_ids b (run a st))%list.
Proof.
  revert st; induction a as [|ev a IH]; intros st; [reflexivity|].
  cbn [List.app assigned_ids run fold_left]. fold (run a (step ev st)).
  now rewrite IH, app_assoc.
Qed.

Lemma lines_not_resets (evs : list event) :
  forallb is_line evs = true ->
  forallb (fun ev => negb (is_confirmed_reset ev)) evs = true.
Proof.
  induction evs as [|ev evs IH]; [reflexivity|].
  cbn [forallb]. intros H. apply andb_true_iff in H as [H1 H2].
  rewrite (IH H2). now destruct ev.
Qed.

(** C6.  From a counter of at least 1, as every session has.  Over any
    events without a confirmed reset the sample numbers given out are
    consecutive from the counter, none skipped and none repeated, the
    counter ends after the last and the ledger has grown by one row for
    each.  Whatever the events, a line that carries a reading appends at
    that moment one row, whose name is [Sample_] followed by the number
    given out for it; over appends only, the rows appended carry exactly
    the numbers given out, in order.  The counter of the session gets back
    to 1 only by a confirmed reset, which also empties the ledger and
    clears the device name. *)
Theorem sample_ids_consecutive (evs : list event) (st : app) :
  1 <= sample_counter st ->
  (forallb (fun ev => negb (is_confirmed_reset ev)) evs = true ->
   assigned_ids evs st
   = count_from (sample_counter st) (List.length (assigned_ids evs st))
   /\ sample_counter (run evs st)
      = sample_counter st + Z.of_nat (List.length (assigned_ids evs st))
   /\ List.length (data (run evs st))
      = (List.length (data st) + List.length (assigned_ids evs st))%nat)
  /\ (forall before combo line after w u,
         evs = (before ++ Line combo line :: after)%list ->
         extract (strip line) = Some (w, u) ->
         exists r,
           data (run (before ++ [Line combo line]) st)
           = (data (run before st) ++ [r])%list
           /\ row_sample_name r
              = "Sample_" ++ str_of_int (sample_counter (run before st))
           /\ row_weight r = w
           /\ nth_error (assigned_ids evs st)
                (List.length (assigned_ids before st))
              = Some (sample_counter (run before st)))
  /\ (forallb is_line evs = true ->
      exists rows,
        data (run evs st) = (data st ++ rows)%list
        /\ map row_sample_name rows
           = map (fun i => "Sample_" ++ str_of_int i) (assigned_ids evs st))
  /\ (forall ev,
         sample_counter (run evs st) <> 1 ->
         sample_counter (step ev (run evs st)) = 1 ->
         ev = Reset true)
  /\ data (reset_data true (run evs st)) = []
  /\ sample_counter (reset_data true (run evs st)) = 1
  /\ device_name (reset_data true (run evs st)) = "".
Proof.
  intros Hpos; split; [|split; [|split; [|split; [|repeat split]]]].
  - intros Hno. exact (assigned_ids_count evs st Hno).
  - intros before combo line after w u -> He.
    exists (row_for combo w u (run before st)).
    rewrite run_app. cbn [run fold_left]. rewrite data_step_line, He.
    split; [reflexivity|]. split; [reflexivity|]. split; [reflexivity|].
    rewrite assigned_ids_app, nth_error_app2 by lia.
    rewrite Nat.sub_diag. cbn [assigned_ids]. now rewrite He.
  - intros Hl.
    destruct (names_of_lines evs st Hl) as (rows & Hd & Hn & _).
    destruct (assigned_ids_count evs st (lines_not_resets evs Hl))
      as (Hids & _ & Hlen).
    exists rows. split; [exact Hd|].
    rewrite Hd, length_app in Hlen.
    assert (E : List.length rows = List.length (assigned_ids evs st)) by lia.
    rewrite Hn, Hids, E, <- Hids. reflexivity.
  - intros ev Hne H1.
    pose proof (sample_counter_run_positive evs st Hpos) as Hr.
    destruct ev as [combo line| rowid col_idx v | [|]].
    + rewrite sample_counter_step_line in H1.
      destruct (extract (strip line)); [lia | contradiction].
    + rewrite sample_counter_save_edit in H1; contradiction.
    + reflexivity.
    + simpl in H1; contradiction.
Qed.

(** A session of lines only. *)
Definition three_lines : list event :=
  [Line "" "+1.5 g"; Line "" "ERROR"; Line "" "2.5 g"].

Lemma sample_ids_consecutive_witness :
  1 <= sample_counter (init NoFile)
  /\ assigned_ids short_session (init NoFile) = [1; 2]
  /\ sample_counter (run short_session (init NoFile)) = 3
  /\ List.length (data (run short_session (init NoFile))) = 2%nat
  /\ (exists r,
         data (run ([Line "" "+1.5 g"; Line "" "ERROR"; Edit "I001" 4 "dried"]
                    ++ [Line "" "2.5 g"]) (init NoFile))
         = (data (run [Line "" "+1.5 g"; Line "" "ERROR";
                       Edit "I001" 4 "dried"] (init NoFile)) ++ [r])%list
         /\ row_sample_name r = "Sample_2"
         /\ nth_error (assigned_ids short_session (init NoFile)) 1 = Some 2)
  /\ (exists rows,
         data (run three_lines (init NoFile)) = rows
         /\ map row_sample_name rows = ["Sample_1"; "Sample_2"])
  /\ Reset true = Reset true
  /\ sample_counter (reset_data true (run short_session (init NoFile))) = 1.
Proof.
  assert (Hpos : 1 <= sample_counter (init NoFile)) by (simpl; lia).
  destruct (sample_ids_consecutive short_session (init NoFile) Hpos)
    as (Hrun & Hrow & _ & Honly & _ & Hreset & _).
  destruct (sample_ids_consecutive three_lines (init NoFile) Hpos)
    as (_ & _ & Hlines & _).
  destruct (Hrun eq_refl) as (Hids & Hc & Hlen).
  split; [exact Hpos|].
  split; [exact Hids|].
  split; [exact Hc|].
  split; [exact Hlen|].
  split.
  { destruct (Hrow [Line "" "+1.5 g"; Line "" "ERROR"; Edit "I001" 4 "dried"]
                "" "2.5 g" [Reset false]
                (S754_finite false 5629499534213120 (-51)) "g"
                eq_refl eq_refl) as (r & Hd & Hn & _ & Hnth).
    exists r. split; [exact Hd|]. split; [exact Hn | exact Hnth]. }
  split.
  { destruct (Hlines eq_refl) as (rows & Hd & Hn).
    exists rows. split; [exact Hd | exact Hn]. }
  split; [|exact Hreset].
  apply Honly; [vm_compute; discriminate | reflexivity].
Defined.

(** * Edits by key *)







(** Keys can be shared once a ledger was restored after a reset: the row
    saved under [I002] keeps that key, the new table numbers from [I001],
    and the next reading is given [I002] again.  An edit under [I002] then
    changes the first of the two rows, which the table shows under
    [I001]. *)
Remark shared_key_after_restore :
  let lost := run [Line "" "1.5 g"; Reset true; Line "" "2.5 g"] (init NoFile) in
  let st := step (Line "" "3.5 g")
              (load_temp_data true (init (TEMP_FILE lost))) in
  map row_iid (data st) = ["I002"; "I002"]
  /\ map fst (tree_items (tree st)) = ["I001"; "I002"]
  /\ map row_comments (edit_rows "I002" 4 "dried" (data st)) = ["dried"; ""].
Proof. repeat split. Qed.
